(** * nixysa static glue: the PPAPI static object graph and the NPAPI helpers

    A shallow embedding of
      - [static_glue/ppapi/static_object.{h,cc}]: [StaticObject] (a node of
        the namespace graph with its base-class link and its children map)
        and [StaticObjectWrapper] (the scriptable object handed to the
        browser);
      - [static_glue/npapi/common.cc]: the string conversions and the
        property helpers built on the browser's [NPN_*] entry points.

    Pointers to [StaticObject] are addresses into a store; [NULL] is [None].
    Out-parameters ([pp::Var* exception], [pp::Var* result]) are passed in
    and returned. Recursion along [base_class_] is bounded by fuel. *)

From Stdlib Require Import ZArith Lia.
From Stdlib.Strings Require Import Byte.
From stdpp Require Import gmap strings list.

Local Open Scope string_scope.

(** ** PPAPI: [pp::Var], the store and the monad *)

Module Ppapi.

(** [StaticObject*]: an address, or [None] for [NULL]. *)
Abbreviation addr := positive (only parsing).
Abbreviation ptr := (option positive) (only parsing).

(** [pp::InstancePrivate*], only ever passed along. *)
Abbreviation Instance := positive (only parsing).

(** [pp::Var]: the browser's tagged value. [pp::Var()] is [VUndefined],
    [pp::Var(const char* )] is [VString], [pp::VarPrivate(instance, obj)]
    is [VObject] (its payload is the handle of the scriptable object). A
    double is kept as its 64-bit pattern. *)
Inductive Var : Type :=
| VUndefined
| VNull
| VBool (b : bool)
| VInt (i : Z)
| VDouble (bits : Z)
| VString (s : string)
| VObject (scriptable : nat).

Definition is_undefined (v : Var) : bool :=
  match v with VUndefined => true | _ => false end.

Definition is_null (v : Var) : bool :=
  match v with VNull => true | _ => false end.

Definition is_string (v : Var) : bool :=
  match v with VString _ => true | _ => false end.

(** [class StaticObject]: the two private fields. The map stores the
    pointer it was given, [NULL] included. *)
Record StaticObject : Type := mkStaticObject {
  base_class_ : ptr;
  namespace_objects_ : gmap string ptr
}.

(** [class StaticObjectWrapper]: the two private fields. *)
Record StaticObjectWrapper : Type := mkStaticObjectWrapper {
  instance_ : Instance;
  static_object_ : addr
}.

(** The state the glue code works on: the nodes of the namespace graph and
    the wrappers allocated so far by [new StaticObjectWrapper]. *)
Record World : Type := mkWorld {
  objects : gmap addr StaticObject;
  wrappers : list StaticObjectWrapper
}.

(** What a call can do: return a value in a new state, fault on a null or
    dangling [StaticObject*], or exhaust the fuel given to the walk along
    [base_class_] (a chain longer than the fuel, a cyclic one for all
    fuels). *)
Inductive outcome (A : Type) : Type :=
| Returns (a : A) (w : World)
| Fault
| OutOfFuel.

Arguments Returns {A} a w.
Arguments Fault {A}.
Arguments OutOfFuel {A}.

Definition M (A : Type) : Type := World -> outcome A.

Definition ret {A} (a : A) : M A := fun w => Returns a w.

Definition bind {A B} (m : M A) (k : A -> M B) : M B :=
  fun w => match m w with
           | Returns a w' => k a w'
           | Fault => Fault
           | OutOfFuel => OutOfFuel
           end.

Definition fault {A} : M A := fun _ => Fault.
Definition out_of_fuel {A} : M A := fun _ => OutOfFuel.

#[global] Instance M_ret : MRet M := @ret.
#[global] Instance M_bind : MBind M := fun A B k m => bind m k.

(** Reading the object behind a [StaticObject*] that is about to be used. *)
Definition deref (p : ptr) : M StaticObject :=
  fun w => match p with
           | Some a => match objects w !! a with
                       | Some o => Returns o w
                       | None => Fault
                       end
           | None => Fault
           end.

Definition store (this : addr) (o : StaticObject) : M unit :=
  fun w => Returns tt (mkWorld (<[this := o]> (objects w)) (wrappers w)).

(** [new StaticObjectWrapper(instance, static_object)]: the handle of the
    new wrapper is its position in the allocation list. *)
Definition new_StaticObjectWrapper (instance : Instance) (static_object : addr)
  : M nat :=
  fun w => Returns (length (wrappers w))
             (mkWorld (objects w)
                (wrappers w ++ [mkStaticObjectWrapper instance static_object])).

(** ** [StaticObject]: registry operations *)

Definition SetBaseClass (this : addr) (base_class : ptr) : M unit :=
  o ← deref (Some this);
  store this (mkStaticObject base_class (namespace_objects_ o)).

(** [namespace_objects_[name] = object;] *)
Definition AddNamespaceObject (this : addr) (name : string) (object : ptr)
  : M unit :=
  o ← deref (Some this);
  store this (mkStaticObject (base_class_ o)
                (<[name := object]> (namespace_objects_ o))).

Definition GetNamespaceObject (this : addr) (namespace_name : string) : M ptr :=
  o ← deref (Some this);
  match namespace_objects_ o !! namespace_name with
  | Some second => ret second
  | None => ret None
  end.

(** [new StaticObjectWrapper(instance, this)], reached by a virtual call
    through the pointer [this]. *)
Definition CreateWrapper (this : ptr) (instance : Instance) : M nat :=
  _ ← deref this;
  match this with
  | Some a => new_StaticObjectWrapper instance a
  | None => fault
  end.

(** ** [StaticObject]: the resolution operations of the base class *)

Fixpoint HasMethodInner (fuel : nat) (this : addr) (method : string) : M bool :=
  match fuel with
  | O => out_of_fuel
  | S fuel' =>
      o ← deref (Some this);
      match base_class_ o with
      | Some b => HasMethodInner fuel' b method
      | None => ret false
      end
  end.

Fixpoint HasPropertyInner (fuel : nat) (this : addr) (property : string)
  : M bool :=
  match fuel with
  | O => out_of_fuel
  | S fuel' =>
      o ← deref (Some this);
      match namespace_objects_ o !! property with
      | Some _ => ret true
      | None =>
          match base_class_ o with
          | Some b => HasPropertyInner fuel' b property
          | None => ret false
          end
      end
  end.

(** Returns the boolean with the final contents of [*exception] and
    [*result]. *)
Fixpoint GetPropertyInner (fuel : nat) (this : addr) (instance : Instance)
    (property : string) (exception result : Var) : M (bool * Var * Var) :=
  match fuel with
  | O => out_of_fuel
  | S fuel' =>
      o ← deref (Some this);
      match namespace_objects_ o !! property with
      | Some second =>
          h ← CreateWrapper second instance;
          ret (true, exception, VObject h)
      | None =>
          match base_class_ o with
          | Some b =>
              GetPropertyInner fuel' b instance property exception result
          | None =>
              if is_null exception
              then ret (false, VString "unknown property", result)
              else ret (false, exception, result)
          end
      end
  end.

(** Returns the final contents of [*names] and [*exception]. *)
Fixpoint GetAllPropertyNames (fuel : nat) (this : addr) (names : list Var)
    (exception : Var) : M (list Var * Var) :=
  match fuel with
  | O => out_of_fuel
  | S fuel' =>
      o ← deref (Some this);
      match base_class_ o with
      | Some b => GetAllPropertyNames fuel' b names exception
      | None => ret (names, exception)
      end
  end.

Fixpoint SetPropertyInner (fuel : nat) (this : addr) (name : string)
    (value : Var) (exception : Var) : M (bool * Var) :=
  match fuel with
  | O => out_of_fuel
  | S fuel' =>
      o ← deref (Some this);
      match base_class_ o with
      | Some b => SetPropertyInner fuel' b name value exception
      | None =>
          if is_null exception
          then ret (false, VString "unknown property")
          else ret (false, exception)
      end
  end.

Fixpoint CallInner (fuel : nat) (this : addr) (instance : Instance)
    (method : string) (args : list Var) (exception result : Var)
  : M (bool * Var * Var) :=
  match fuel with
  | O => out_of_fuel
  | S fuel' =>
      o ← deref (Some this);
      match base_class_ o with
      | Some b => CallInner fuel' b instance method args exception result
      | None =>
          if is_null exception
          then ret (false, VString "method does not exist", result)
          else ret (false, exception, result)
      end
  end.

(** The body reads no field of [this]. *)
Definition ConstructInner (this : addr) (instance : Instance)
    (args : list Var) (exception result : Var) : M (bool * Var * Var) :=
  ret (false, VString "missing constructor", result).

(** ** [StaticObjectWrapper]

    Every operation of the wrapper calls a virtual method of
    [static_object_]; which body runs depends on the dynamic class of that
    object. The class below is that method table; [StaticObject_base] is
    the table of a plain [StaticObject]. *)

Class StaticObjectVirtuals : Type := {
  vHasMethodInner : addr -> string -> M bool;
  vHasPropertyInner : addr -> string -> M bool;
  vGetPropertyInner :
    addr -> Instance -> string -> Var -> Var -> M (bool * Var * Var);
  vGetAllPropertyNames : addr -> list Var -> Var -> M (list Var * Var);
  vSetPropertyInner : addr -> string -> Var -> Var -> M (bool * Var);
  vCallInner :
    addr -> Instance -> string -> list Var -> Var -> Var -> M (bool * Var * Var);
  vConstructInner :
    addr -> Instance -> list Var -> Var -> Var -> M (bool * Var * Var)
}.

Definition StaticObject_base (fuel : nat) : StaticObjectVirtuals := {|
  vHasMethodInner := HasMethodInner fuel;
  vHasPropertyInner := HasPropertyInner fuel;
  vGetPropertyInner := GetPropertyInner fuel;
  vGetAllPropertyNames := GetAllPropertyNames fuel;
  vSetPropertyInner := SetPropertyInner fuel;
  vCallInner := CallInner fuel;
  vConstructInner := ConstructInner
|}.

(** The table [V] with its [CallInner] slot replaced. *)
Definition override_CallInner (V : StaticObjectVirtuals)
    (f : addr -> Instance -> string -> list Var -> Var -> Var ->
         M (bool * Var * Var)) : StaticObjectVirtuals := {|
  vHasMethodInner := @vHasMethodInner V;
  vHasPropertyInner := @vHasPropertyInner V;
  vGetPropertyInner := @vGetPropertyInner V;
  vGetAllPropertyNames := @vGetAllPropertyNames V;
  vSetPropertyInner := @vSetPropertyInner V;
  vCallInner := f;
  vConstructInner := @vConstructInner V
|}.

Section Wrapper.
Context {V : StaticObjectVirtuals}.

Definition plugin_instance (this : StaticObjectWrapper) : Instance :=
  instance_ this.

(** The wrapper operations return their C++ return value together with
    the final contents of [*exception]. *)
Definition HasMethod (this : StaticObjectWrapper) (method : Var)
    (exception : Var) : M (bool * Var) :=
  match method with
  | VString s =>
      b ← vHasMethodInner (static_object_ this) s;
      ret (b, exception)
  | _ => ret (false, VString "method name is not a string")
  end.

Definition HasProperty (this : StaticObjectWrapper) (name : Var)
    (exception : Var) : M (bool * Var) :=
  match name with
  | VString s =>
      b ← vHasPropertyInner (static_object_ this) s;
      ret (b, exception)
  | _ => ret (false, VString "property name is not a string")
  end.

Definition GetProperty (this : StaticObjectWrapper) (name : Var)
    (exception : Var) : M (Var * Var) :=
  let result := VUndefined in
  match name with
  | VString s =>
      '(_, exception', result') ←
        vGetPropertyInner (static_object_ this) (plugin_instance this) s
          exception result;
      ret (result', exception')
  | _ => ret (result, VString "property name is not a string")
  end.

Definition Wrapper_GetAllPropertyNames (this : StaticObjectWrapper)
    (names : list Var) (exception : Var) : M (list Var * Var) :=
  vGetAllPropertyNames (static_object_ this) names exception.

Definition SetProperty (this : StaticObjectWrapper) (name value : Var)
    (exception : Var) : M Var :=
  match name with
  | VString s =>
      '(_, exception') ←
        vSetPropertyInner (static_object_ this) s value exception;
      ret exception'
  | _ => ret (VString "property name is not a string")
  end.

Definition Construct (this : StaticObjectWrapper) (args : list Var)
    (exception : Var) : M (Var * Var) :=
  let result := VUndefined in
  '(_, exception', result') ←
    vConstructInner (static_object_ this) (plugin_instance this) args
      exception result;
  ret (result', exception').

Definition Call (this : StaticObjectWrapper) (method : Var)
    (args : list Var) (exception : Var) : M (Var * Var) :=
  let result := VUndefined in
  if is_undefined method then Construct this args exception
  else
    match method with
    | VString s =>
        '(_, exception', result') ←
          vCallInner (static_object_ this) (plugin_instance this) s args
            exception result;
        ret (result', exception')
    | _ => ret (result, VString "method name is not a string")
    end.
End Wrapper.

End Ppapi.

(** ** NPAPI: the helpers of [static_glue/npapi/common.cc] *)

Module Npapi.

(** *** Strings

    A [std::string] is its bytes; a [std::wstring] is the values of its
    [wchar_t]s. Both may hold NUL characters; a C string ends at the first
    one. *)
Definition wchar_t := Z.

Definition NUL : byte := x00.
Definition WNUL : wchar_t := 0%Z.

Definition is_NUL (c : byte) : bool := Byte.eqb c NUL.
Definition is_WNUL (c : wchar_t) : bool := (c =? WNUL)%Z.

(** The characters a [const T*] argument denotes when it is read as a
    NUL-terminated string: those before the first NUL of the buffer. *)
Fixpoint c_str {T} (is_nul : T -> bool) (buffer : list T) : list T :=
  match buffer with
  | [] => []
  | c :: rest => if is_nul c then [] else c :: c_str is_nul rest
  end.

(** [char] is a signed 8-bit integer: the value of a byte as a [char]. *)
Definition char_value (c : byte) : Z :=
  let n := Z.of_N (Byte.to_N c) in
  if (n <? 128)%Z then n else (n - 256)%Z.

(** [int] and the Linux and Mac [wchar_t]: signed 32-bit wrap-around. *)
Definition wrap_int32 (z : Z) : Z :=
  ((z + 2 ^ 31) mod 2 ^ 32 - 2 ^ 31)%Z.

(** [char] to [wchar_t] keeps the value. *)
Definition wchar_of_char (c : byte) : wchar_t := wrap_int32 (char_value c).

(** [wchar_t] to [char] keeps the low eight bits. *)
Definition char_of_wchar (w : wchar_t) : byte :=
  match Byte.of_N (Z.to_N (w mod 256)) with
  | Some b => b
  | None => x00
  end.

(** The build selects one of three bodies. *)
Inductive Platform : Type := OS_MACOSX | OS_WINDOWS | OS_LINUX.

(** The conversion services of the operating system, which are not part of
    the glue. Each is a function of the text it is given.
      - [MultiByteToWideChar] and [WideCharToMultiByte] (Windows, code page
        [CP_UTF8]): [None] when the call returns a count [<= 0] without
        converting, otherwise the characters written to the buffer, whose
        number is the count returned by both the sizing call and the
        converting call.
      - [CF_UTF8_to_UTF32] (Mac): [CFStringCreateWithCString] followed by
        [CFStringCreateExternalRepresentation] in UTF-32; [None] when one
        of them returns NULL, otherwise the [wchar_t]s after the byte order
        mark.
      - [CF_UTF32_to_UTF8] (Mac): [CFStringCreateFromExternalRepresentation]
        followed by [CFStringCreateExternalRepresentation] in UTF-8: the
        bytes of the data object. *)
Record PlatformApi : Type := mkPlatformApi {
  MultiByteToWideChar : list byte -> option (list wchar_t);
  WideCharToMultiByte : list wchar_t -> option (list byte);
  CF_UTF8_to_UTF32 : list byte -> option (list wchar_t);
  CF_UTF32_to_UTF8 : list wchar_t -> list byte
}.

Section Conversions.
Variable platform : Platform.
Variable api : PlatformApi.

(** [in] holds the [len] bytes the pointer designates and is followed by
    a NUL. Returns the boolean and the final contents of [*out16]. *)
Definition UTF8ToString16 (in_ : list byte) (out16 : list wchar_t)
  : bool * list wchar_t :=
  let len := Z.of_nat (length in_) in
  if (len =? 0)%Z then (true, [])
  else
    match platform with
    | OS_MACOSX =>
        (* CFStringCreateWithCString reads [in] up to its first NUL *)
        match CF_UTF8_to_UTF32 api (c_str is_NUL (in_ ++ [NUL])) with
        | None => (false, out16)
        | Some tmp => (true, c_str is_WNUL (tmp ++ [WNUL]))
        end
    | OS_WINDOWS =>
        match MultiByteToWideChar api in_ with
        | None => (false, out16)
        | Some tmp =>
            let out_len := Z.of_nat (length tmp) in
            if (out_len <=? 0)%Z then (false, out16)
            else (true, c_str is_WNUL (tmp ++ [WNUL]))
        end
    | OS_LINUX =>
        let string_in := in_ in
        (true, map wchar_of_char string_in)
    end.

(** Returns the boolean and the final contents of [*out8]. *)
Definition String16ToUTF8 (in_ : list wchar_t) (out8 : list byte)
  : bool * list byte :=
  let len := Z.of_nat (length in_) in
  if (len =? 0)%Z then (true, [])
  else
    match platform with
    | OS_MACOSX =>
        let tmp := CF_UTF32_to_UTF8 api in_ in
        let out_len := Z.of_nat (length tmp) in
        if (out_len <=? 0)%Z then (false, out8)
        else (true, c_str is_NUL (tmp ++ [NUL]))
    | OS_WINDOWS =>
        match WideCharToMultiByte api in_ with
        | None => (false, out8)
        | Some tmp =>
            let out_len := Z.of_nat (length tmp) in
            if (out_len <=? 0)%Z then (false, out8)
            else (true, c_str is_NUL (tmp ++ [NUL]))
        end
    | OS_LINUX =>
        let string_in := in_ in
        (true, map char_of_wchar string_in)
    end.

(** Encoding to the wide representation and back, as
    [String16ToNPVariant] calls the second conversion: on
    [in.c_str(), in.size()]. [None] when either conversion fails. *)
Definition utf8_round_trip (in_ : list byte) : option (list byte) :=
  match UTF8ToString16 in_ [] with
  | (true, s16) =>
      match String16ToUTF8 s16 [] with
      | (true, s8) => Some s8
      | (false, _) => None
      end
  | (false, _) => None
  end.
End Conversions.

(** *** The browser

    [NPVariant], with [VOID_TO_NPVARIANT] and [STRINGN_TO_NPVARIANT] of
    [npruntime.h] as the constructors they select. A string variant holds
    the address of its characters and their number. *)
Definition pointer := Z.
Definition NULL : pointer := 0%Z.
Definition NPP := Z.
Definition NPIdentifier := Z.

Inductive NPVariant : Type :=
| NPVoid
| NPNull
| NPBool (b : bool)
| NPInt32 (i : Z)
| NPDouble (bits : Z)
| NPString (UTF8Characters : pointer) (UTF8Length : Z)
| NPObject (object : pointer).

(** The entry points of the browser that the helpers call, each with the
    type of its answer. [NPN_GetProperty] is given the contents of
    [*output] and answers with the boolean and the new contents. Sizes
    and lengths are the numbers the caller passes: the integer types of
    the prototypes in [npapi.h] are not part of the glue. *)
Inductive HostCall : Type -> Type :=
| NPN_MemAlloc (size : Z) : HostCall pointer
| NPN_GetStringIdentifier (name : string) : HostCall NPIdentifier
| NPN_GetIntIdentifier (intid : Z) : HostCall NPIdentifier
| NPN_HasProperty (npp : NPP) (object : pointer) (id : NPIdentifier)
  : HostCall bool
| NPN_GetProperty (npp : NPP) (object : pointer) (id : NPIdentifier)
    (output : NPVariant) : HostCall (bool * NPVariant).

(** A helper is a tree of browser calls and writes to memory that ends in
    its return value. *)
Inductive Glue (A : Type) : Type :=
| Done (a : A)
| Host {T : Type} (call : HostCall T) (k : T -> Glue A)
| Memcpy (dst : pointer) (src : list byte) (k : Glue A).

Arguments Done {A} a.
Arguments Host {A T} call k.
Arguments Memcpy {A} dst src k.

Fixpoint glue_bind {A B} (m : Glue A) (f : A -> Glue B) : Glue B :=
  match m with
  | Done a => f a
  | Host call k => Host call (fun t => glue_bind (k t) f)
  | Memcpy dst src k => Memcpy dst src (glue_bind k f)
  end.

#[global] Instance Glue_ret : MRet Glue := @Done.
#[global] Instance Glue_bind : MBind Glue := fun A B f m => glue_bind m f.

Definition host {T} (call : HostCall T) : Glue T := Host call Done.
Definition memcpy (dst : pointer) (src : list byte) : Glue unit :=
  Memcpy dst src (Done tt).

(** Byte-addressed memory. *)
Definition memory := Z -> byte.

Fixpoint write_bytes (m : memory) (dst : pointer) (src : list byte) : memory :=
  match src with
  | [] => m
  | b :: rest =>
      write_bytes (fun a => if (a =? dst)%Z then b else m a) (dst + 1)%Z rest
  end.

Fixpoint read_bytes (m : memory) (p : pointer) (n : nat) : list byte :=
  match n with
  | O => []
  | S n' => m p :: read_bytes m (p + 1)%Z n'
  end.

(** A browser: some state of its own and, for each entry point, the answer
    and the effect on memory and on that state. *)
Record Browser : Type := mkBrowser {
  browser_state : Type;
  answer : forall T, HostCall T -> memory * browser_state ->
                     T * (memory * browser_state)
}.

(** One browser call as it is seen from outside. *)
Definition event : Type := sigT HostCall.
Definition called {T} (call : HostCall T) : event := existT T call.

(** Running a helper against a browser: the value returned, the final
    memory and browser state, and the calls made, in order. *)
Fixpoint run {A} (B : Browser) (p : Glue A) (s : memory * browser_state B)
  : A * (memory * browser_state B) * list event :=
  match p with
  | Done a => (a, s, [])
  | Host call k =>
      let '(t, s') := answer B _ call s in
      let '(a, s'', tr) := run B (k t) s' in
      (a, s'', called call :: tr)
  | Memcpy dst src k =>
      run B k (write_bytes (fst s) dst src, snd s)
  end.

(** *** The helpers. Each returns its boolean and the final contents of
    the variant it was given. The profiling macros expand to nothing. *)

Definition StringToNPVariant (in_ : list byte) (variant : NPVariant)
  : Glue (bool * NPVariant) :=
  let length := Z.of_nat (length in_) in
  chars ← host (NPN_MemAlloc length);
  if (chars =? NULL)%Z then mret (false, NPVoid)
  else
    memcpy chars in_;;
    mret (true, NPString chars length).

Definition String16ToNPVariant (platform : Platform) (api : PlatformApi)
    (in_ : list wchar_t) (variant : NPVariant) : Glue (bool * NPVariant) :=
  let out8 := [] in
  let '(r, out8) := String16ToUTF8 platform api in_ out8 in
  if negb r then mret (false, NPVoid)
  else StringToNPVariant out8 variant.

Definition GetNPObjectProperty (npp : NPP) (object : pointer) (name : string)
    (output : NPVariant) : Glue (bool * NPVariant) :=
  identifier ← host (NPN_GetStringIdentifier name);
  result ← host (NPN_HasProperty npp object identifier);
  if negb result then mret (false, output)
  else host (NPN_GetProperty npp object identifier output).

(** [IsHasPropertyWorkaround()] is declared outside this file; its value is
    the first argument. *)
Definition GetNPArrayProperty (IsHasPropertyWorkaround : bool) (npp : NPP)
    (object : pointer) (index : Z) (output : NPVariant)
  : Glue (bool * NPVariant) :=
  identifier ← host (NPN_GetIntIdentifier index);
  let fetch := host (NPN_GetProperty npp object identifier output) in
  if negb IsHasPropertyWorkaround then
    result ← host (NPN_HasProperty npp object identifier);
    if negb result then mret (false, output) else fetch
  else fetch.

(** *** [UIntToString] *)

(** The character of a decimal digit. *)
Definition digit (d : Z) : byte :=
  match d with
  | 0 => x30 | 1 => x31 | 2 => x32 | 3 => x33 | 4 => x34
  | 5 => x35 | 6 => x36 | 7 => x37 | 8 => x38 | _ => x39
  end%Z.

Fixpoint decimal (fuel : nat) (v : Z) (acc : list byte) : list byte :=
  match fuel with
  | O => acc
  | S fuel' =>
      let acc' := digit (v mod 10) :: acc in
      if (v / 10 =? 0)%Z then acc' else decimal fuel' (v / 10) acc'
  end.

(** The text that [%u] stands for: the decimal digits of [v], most
    significant first, ["0"] for zero. *)
Definition format_u (v : Z) : list byte :=
  decimal (S (S (Z.to_nat (Z.log2 v)))) v [].

(** [snprintf(buffer, size, "%u", value)] for [size >= 1]: returns the
    length of the whole text and leaves in the buffer at most [size - 1]
    characters of it, then a NUL, then what the buffer held. *)
Definition snprintf_u (buffer : list byte) (size : Z) (value : Z)
  : Z * list byte :=
  let text := format_u value in
  let written := take (Z.to_nat (size - 1)) text in
  (Z.of_nat (length text),
   (written ++ [NUL] ++ drop (S (length written)) buffer)%list).

(** [value] is an [unsigned int], 32 bits wide. *)
Definition UIntToString (value : Z) : list byte :=
  let value := (value mod 2 ^ 32)%Z in
  let buffer := replicate 11 NUL in
  let '(result, buffer) := snprintf_u buffer 11 value in
  c_str is_NUL buffer.

(** Reading a decimal text back. *)
Definition digit_value (c : byte) : Z := (Z.of_N (Byte.to_N c) - 48)%Z.

Definition parse_u (text : list byte) : Z :=
  fold_left (fun n c => (10 * n + digit_value c)%Z) text 0%Z.

Definition is_digit (c : byte) : bool :=
  (0 <=? digit_value c)%Z && (digit_value c <=? 9)%Z.

(** *** Code that calls other entry points

    [CreateArray] and the plugin entry points of [main.cc] call parts of
    the browser and of the generated glue that the helpers above do not
    use. A piece of such code is a tree of calls over a signature [E]; a
    handler gives each call its answer and its effect on a state. *)
Inductive Prog (E : Type -> Type) (A : Type) : Type :=
| Finish (a : A)
| Perform {T : Type} (call : E T) (k : T -> Prog E A).

Arguments Finish {E A} a.
Arguments Perform {E A T} call k.

Fixpoint prog_bind {E A B} (m : Prog E A) (f : A -> Prog E B) : Prog E B :=
  match m with
  | Finish a => f a
  | Perform call k => Perform call (fun t => prog_bind (k t) f)
  end.

#[global] Instance Prog_ret {E} : MRet (Prog E) := @Finish E.
#[global] Instance Prog_bind {E} : MBind (Prog E) :=
  fun A B f m => prog_bind m f.

Definition perform {E T} (call : E T) : Prog E T := Perform call Finish.

Record Handler (E : Type -> Type) : Type := mkHandler {
  handler_state : Type;
  handle : forall T, E T -> handler_state -> T * handler_state
}.

Arguments handler_state {E} _.
Arguments handle {E} _ _ _ _.

(** The value returned, the final state and the calls made, in order. *)
Fixpoint exec {E A} (H : Handler E) (p : Prog E A) (s : handler_state H)
  : A * handler_state H * list (sigT E) :=
  match p with
  | Finish a => (a, s, [])
  | Perform call k =>
      let '(t, s') := handle H _ call s in
      let '(a, s'', tr) := exec H (k t) s' in
      (a, s'', existT _ call :: tr)
  end.

(** *** [CreateArray]

    With [PROFILE_GLUE] the profiling macros call the hooks of the glue
    user; they are kept here as calls. [NPN_GetValue] answers with its
    error code and the contents of [global_object] afterwards,
    [NPN_Evaluate] with its boolean and the contents of [result]
    afterwards; both locals are uninitialised before. *)
Inductive ArrayCall : Type -> Type :=
| GLUE_PROFILE_START (npp : NPP) (key : string) : ArrayCall unit
| GLUE_PROFILE_STOP (npp : NPP) (key : string) : ArrayCall unit
| NPN_GetValue_NPNVWindowNPObject (npp : NPP) : ArrayCall (Z * pointer)
| NPN_Evaluate (npp : NPP) (object : pointer) (script : list byte)
  : ArrayCall (bool * NPVariant)
| NPN_ReleaseVariantValue (variant : NPVariant) : ArrayCall unit.

Definition CreateArray (npp : NPP) : Prog ArrayCall pointer :=
  perform (GLUE_PROFILE_START npp "CreateArray");;
  perform (GLUE_PROFILE_START npp "getvalue");;
  '(_, global_object) ← perform (NPN_GetValue_NPNVWindowNPObject npp);
  perform (GLUE_PROFILE_STOP npp "getvalue");;
  let utf8characters := [x5b; x5d; NUL] in
  let utf8length := length (c_str is_NUL utf8characters) in
  let string := take utf8length utf8characters in
  perform (GLUE_PROFILE_START npp "evaluate");;
  '(temp, result) ← perform (NPN_Evaluate npp global_object string);
  perform (GLUE_PROFILE_STOP npp "evaluate");;
  if negb temp then mret NULL
  else
    match result with
    | NPObject object => mret object
    | _ =>
        perform (GLUE_PROFILE_START npp "NPN_ReleaseVariantValue");;
        perform (NPN_ReleaseVariantValue result);;
        perform (GLUE_PROFILE_STOP npp "NPN_ReleaseVariantValue");;
        mret NULL
    end.

(** How many more times the profile [key] was started than stopped. *)
Fixpoint profile_depth (key : string) (calls : list (sigT ArrayCall)) : Z :=
  match calls with
  | [] => 0
  | existT _ call :: rest =>
      (match call with
       | GLUE_PROFILE_START _ k => if String.eqb k key then 1 else 0
       | GLUE_PROFILE_STOP _ k => if String.eqb k key then -1 else 0
       | _ => 0
       end + profile_depth key rest)%Z
  end.

(** The calls other than those of the profiling macros. *)
Fixpoint browser_calls (calls : list (sigT ArrayCall))
  : list (sigT ArrayCall) :=
  match calls with
  | [] => []
  | existT _ call :: rest =>
      match call with
      | GLUE_PROFILE_START _ _ | GLUE_PROFILE_STOP _ _ => browser_calls rest
      | _ => existT _ call :: browser_calls rest
      end
  end.

(** *** The plugin entry points of [main.cc]

    [instance->pdata] is passed in and returned. [glue::InitializeGlue]
    and [glue::CreateStaticNPObject] belong to the generated glue and are
    calls, like the browser's reference counting. The profiling macros
    expand to nothing. *)
Inductive NPError : Type :=
| NPERR_NO_ERROR
| NPERR_GENERIC_ERROR
| NPERR_INVALID_PARAM.

Inductive NPPVariable : Type :=
| NPPVpluginNameString
| NPPVpluginDescriptionString
| NPPVpluginScriptableNPObject
| NPPVother (code : Z).

Inductive PluginCall : Type -> Type :=
| InitializeGlue (instance : NPP) : PluginCall unit
| CreateStaticNPObject (instance : NPP) (parent : pointer)
  : PluginCall pointer
| NPN_RetainObject (object : pointer) : PluginCall unit
| NPN_ReleaseObject (object : pointer) : PluginCall unit.

Definition NPP_New (instance : NPP) (pdata : pointer)
  : Prog PluginCall (NPError * pointer) :=
  perform (InitializeGlue instance);;
  pdata ← perform (CreateStaticNPObject instance NULL);
  mret (NPERR_NO_ERROR, pdata).

Definition NPP_Destroy (instance : NPP) (pdata : pointer)
  : Prog PluginCall (NPError * pointer) :=
  let obj := pdata in
  if negb (obj =? NULL)%Z then
    perform (NPN_ReleaseObject obj);;
    mret (NPERR_NO_ERROR, NULL)
  else mret (NPERR_NO_ERROR, pdata).

(** Returns the error code and the contents of [*value]. *)
Definition NPP_GetValue (instance : NPP) (pdata : pointer)
    (variable : NPPVariable) (value : pointer)
  : Prog PluginCall (NPError * pointer) :=
  match variable with
  | NPPVpluginScriptableNPObject =>
      let obj := pdata in
      perform (NPN_RetainObject obj);;
      mret (NPERR_NO_ERROR, obj)
  | _ => mret (NPERR_GENERIC_ERROR, value)
  end.

(** [NPP_Destroy] called [n] times in a row on the same instance. *)
Fixpoint destroy_times (n : nat) (instance : NPP) (pdata : pointer)
  : Prog PluginCall (NPError * pointer) :=
  match n with
  | O => mret (NPERR_NO_ERROR, pdata)
  | S n' =>
      '(_, pdata') ← NPP_Destroy instance pdata;
      destroy_times n' instance pdata'
  end.

End Npapi.

(** ** Vocabulary for the statements *)

Import Ppapi.

(** [is_base_chain objs nodes]: every node of [nodes] is a live object and
    the [base_class_] of each is the next one. *)
Fixpoint is_base_chain (objs : gmap addr StaticObject) (nodes : list addr)
  : bool :=
  match nodes with
  | [] => true
  | a :: rest =>
      match objs !! a with
      | None => false
      | Some o =>
          match rest with
          | [] => true
          | b :: _ => bool_decide (base_class_ o = Some b)
          end && is_base_chain objs rest
      end
  end.

(** The node at [a] has a child registered under [name]. *)
Definition declares (objs : gmap addr StaticObject) (name : string) (a : addr)
  : bool :=
  match objs !! a with
  | Some o => bool_decide (is_Some (namespace_objects_ o !! name))
  | None => false
  end.

(** The node at [a] is live and its [base_class_] is [NULL]. *)
Definition is_root (objs : gmap addr StaticObject) (a : addr) : bool :=
  match objs !! a with
  | Some o => bool_decide (base_class_ o = None)
  | None => false
  end.

(** A computation that, whenever it returns, leaves every node of the graph
    as it was. *)
Definition preserves_objects {A} (m : M A) : Prop :=
  ∀ w a w', m w = Returns a w' → objects w' = objects w.

(** A small graph for the examples: node 1 derives from node 2, which
    derives from node 3; node 3 has the child ["x"], the node 4. *)
Definition example_objects : gmap addr StaticObject :=
  <[1%positive := mkStaticObject (Some 2%positive) ∅]>
    (<[2%positive := mkStaticObject (Some 3%positive) ∅]>
       (<[3%positive :=
            mkStaticObject None (<["x" := Some 4%positive]> ∅)]>
          (<[4%positive := mkStaticObject None ∅]> ∅))).

Definition example_world : World := mkWorld example_objects [].

(** The same graph before ["x"] is registered on node 3. *)
Definition example_world0 : World :=
  mkWorld (<[3%positive := mkStaticObject None ∅]> example_objects) [].

(** A browser for the examples. Its allocator hands out consecutive
    addresses from 4096 on and refuses requests above 16 bytes; an
    identifier is the index, or the length of the name; properties 0 and 1
    exist, and only property 0 can be fetched (it holds 42). *)
Definition example_answer (T : Type) (call : Npapi.HostCall T)
    (s : Npapi.memory * Z) : T * (Npapi.memory * Z) :=
  match call in Npapi.HostCall T return T * (Npapi.memory * Z) with
  | Npapi.NPN_MemAlloc size =>
      if (size <=? 16)%Z then (snd s, (fst s, snd s + size)%Z)
      else (Npapi.NULL, s)
  | Npapi.NPN_GetStringIdentifier name => (Z.of_nat (String.length name), s)
  | Npapi.NPN_GetIntIdentifier intid => (intid, s)
  | Npapi.NPN_HasProperty _ _ id => ((id <? 2)%Z, s)
  | Npapi.NPN_GetProperty _ _ id output =>
      if (id =? 0)%Z then ((true, Npapi.NPInt32 42), s)
      else ((false, output), s)
  end.

Definition example_browser : Npapi.Browser :=
  Npapi.mkBrowser Z example_answer.

Definition example_state : Npapi.memory * Z := (fun _ => x00, 4096%Z).

(** A graph with a defect: node 1 derives from node 2, which has the
    child ["x"] (node 4) and is its own base class. *)
Definition example_cyclic_world : World :=
  mkWorld
    (<[1%positive := mkStaticObject (Some 2%positive) ∅]>
       (<[2%positive :=
            mkStaticObject (Some 2%positive)
              (<["x" := Some 4%positive]> ∅)]>
          (<[4%positive := mkStaticObject None ∅]> ∅)))
    [].

(** Platform services that refuse every conversion. *)
Definition example_failing_api : Npapi.PlatformApi :=
  Npapi.mkPlatformApi (fun _ => None) (fun _ => None) (fun _ => None)
    (fun _ => []).

(** A browser for [CreateArray]: the window object is at 77, every
    evaluation answers [evaluated], and the state lists the variants
    released so far. *)
Definition example_array_answer (evaluated : bool * Npapi.NPVariant)
    (T : Type) (call : Npapi.ArrayCall T) (s : list Npapi.NPVariant)
  : T * list Npapi.NPVariant :=
  match call in Npapi.ArrayCall T return T * list Npapi.NPVariant with
  | Npapi.GLUE_PROFILE_START _ _ => (tt, s)
  | Npapi.GLUE_PROFILE_STOP _ _ => (tt, s)
  | Npapi.NPN_GetValue_NPNVWindowNPObject _ => ((0%Z, 77%Z), s)
  | Npapi.NPN_Evaluate _ _ _ => (evaluated, s)
  | Npapi.NPN_ReleaseVariantValue v => (tt, (s ++ [v])%list)
  end.

Definition example_array_browser (evaluated : bool * Npapi.NPVariant)
  : Npapi.Handler Npapi.ArrayCall :=
  Npapi.mkHandler _ (list Npapi.NPVariant) (example_array_answer evaluated).

(** A host for the plugin entry points: the root object is created at 100
    with one reference, and the state is its reference count. *)
Definition example_plugin_answer (T : Type) (call : Npapi.PluginCall T)
    (count : Z) : T * Z :=
  match call in Npapi.PluginCall T return T * Z with
  | Npapi.InitializeGlue _ => (tt, count)
  | Npapi.CreateStaticNPObject _ _ => (100%Z, 1%Z)
  | Npapi.NPN_RetainObject object =>
      (tt, if (object =? 100)%Z then (count + 1)%Z else count)
  | Npapi.NPN_ReleaseObject object =>
      (tt, if (object =? 100)%Z then (count - 1)%Z else count)
  end.

Definition example_plugin_host : Npapi.Handler Npapi.PluginCall :=
  Npapi.mkHandler _ Z example_plugin_answer.

(** ** Stepping lemmas: one call with its receiver resolved *)

Section Steps.
Context (w : World) (this : addr) (o : StaticObject).
Hypothesis Hthis : objects w !! this = Some o.

Lemma deref_live : deref (Some this) w = Returns o w.
Proof. unfold deref. by rewrite Hthis. Qed.

Lemma HasMethodInner_step fuel method :
  HasMethodInner (S fuel) this method w =
  match base_class_ o with
  | Some b => HasMethodInner fuel b method w
  | None => Returns false w
  end.
Proof.
  cbn [HasMethodInner]. unfold mbind, M_bind, bind. rewrite deref_live.
  by destruct (base_class_ o).
Qed.

Lemma HasPropertyInner_step fuel property :
  HasPropertyInner (S fuel) this property w =
  match namespace_objects_ o !! property with
  | Some _ => Returns true w
  | None =>
      match base_class_ o with
      | Some b => HasPropertyInner fuel b property w
      | None => Returns false w
      end
  end.
Proof.
  cbn [HasPropertyInner]. unfold mbind, M_bind, bind. rewrite deref_live.
  destruct (namespace_objects_ o !! property); [done|].
  by destruct (base_class_ o).
Qed.

Lemma GetPropertyInner_step fuel instance property exception result :
  GetPropertyInner (S fuel) this instance property exception result w =
  match namespace_objects_ o !! property with
  | Some second =>
      match CreateWrapper second instance w with
      | Returns h w' => Returns (true, exception, VObject h) w'
      | Fault => Fault
      | OutOfFuel => OutOfFuel
      end
  | None =>
      match base_class_ o with
      | Some b =>
          GetPropertyInner fuel b instance property exception result w
      | None =>
          Returns (false,
                   if is_null exception then VString "unknown property"
                   else exception,
                   result) w
      end
  end.
Proof.
  cbn [GetPropertyInner]. unfold mbind, M_bind, bind. rewrite deref_live.
  destruct (namespace_objects_ o !! property); [done|].
  destruct (base_class_ o); [done|]. by destruct (is_null exception).
Qed.

Lemma GetAllPropertyNames_step fuel names exception :
  GetAllPropertyNames (S fuel) this names exception w =
  match base_class_ o with
  | Some b => GetAllPropertyNames fuel b names exception w
  | None => Returns (names, exception) w
  end.
Proof.
  cbn [GetAllPropertyNames]. unfold mbind, M_bind, bind. rewrite deref_live.
  by destruct (base_class_ o).
Qed.

Lemma SetPropertyInner_step fuel name value exception :
  SetPropertyInner (S fuel) this name value exception w =
  match base_class_ o with
  | Some b => SetPropertyInner fuel b name value exception w
  | None =>
      Returns (false,
               if is_null exception then VString "unknown property"
               else exception) w
  end.
Proof.
  cbn [SetPropertyInner]. unfold mbind, M_bind, bind. rewrite deref_live.
  destruct (base_class_ o); [done|]. by destruct (is_null exception).
Qed.

Lemma CallInner_step fuel instance method args exception result :
  CallInner (S fuel) this instance method args exception result w =
  match base_class_ o with
  | Some b => CallInner fuel b instance method args exception result w
  | None =>
      Returns (false,
               if is_null exception then VString "method does not exist"
               else exception,
               result) w
  end.
Proof.
  cbn [CallInner]. unfold mbind, M_bind, bind. rewrite deref_live.
  destruct (base_class_ o); [done|]. by destruct (is_null exception).
Qed.

Lemma AddNamespaceObject_live name object :
  AddNamespaceObject this name object w =
  Returns tt
    (mkWorld
       (<[this := mkStaticObject (base_class_ o)
                    (<[name := object]> (namespace_objects_ o))]>
          (objects w))
       (wrappers w)).
Proof.
  unfold AddNamespaceObject, mbind, M_bind, bind. by rewrite deref_live.
Qed.

Lemma SetBaseClass_live base_class :
  SetBaseClass this base_class w =
  Returns tt
    (mkWorld
       (<[this := mkStaticObject base_class (namespace_objects_ o)]>
          (objects w))
       (wrappers w)).
Proof.
  unfold SetBaseClass, mbind, M_bind, bind. by rewrite deref_live.
Qed.

Lemma GetNamespaceObject_live namespace_name :
  GetNamespaceObject this namespace_name w =
  Returns (default None (namespace_objects_ o !! namespace_name)) w.
Proof.
  unfold GetNamespaceObject, mbind, M_bind, bind. rewrite deref_live.
  by destruct (namespace_objects_ o !! namespace_name).
Qed.

Lemma CreateWrapper_live instance :
  CreateWrapper (Some this) instance w =
  Returns (length (wrappers w))
    (mkWorld (objects w)
       (wrappers w ++ [mkStaticObjectWrapper instance this])).
Proof.
  unfold CreateWrapper, mbind, M_bind, bind. by rewrite deref_live.
Qed.
End Steps.

Lemma dead_receiver_faults {A} (w : World) (this : addr) (k : StaticObject → M A) :
  objects w !! this = None → (deref (Some this) ≫= k) w = Fault.
Proof. intros H. unfold mbind, M_bind, bind, deref. by rewrite H. Qed.

(** ** Walking a base chain *)

Lemma is_base_chain_cons objs a rest :
  is_base_chain objs (a :: rest) = true ↔
  ∃ o, objs !! a = Some o ∧
       match rest with [] => True | b :: _ => base_class_ o = Some b end ∧
       is_base_chain objs rest = true.
Proof.
  cbn [is_base_chain]. destruct (objs !! a) as [o|]; split.
  - intros [H1 H2]%andb_true_iff. exists o. split_and!; [done| |done].
    destruct rest; [done|]. by apply bool_decide_eq_true in H1.
  - intros (o' & [= <-] & H1 & H2). apply andb_true_iff. split; [|done].
    destruct rest; [done|]. by apply bool_decide_eq_true.
  - done.
  - by intros (? & ? & _).
Qed.

Lemma is_base_chain_step objs a before anc :
  is_base_chain objs ((a :: before) ++ [anc]) = true →
  ∃ o, objs !! a = Some o ∧ base_class_ o = Some (hd anc before) ∧
       is_base_chain objs (before ++ [anc]) = true.
Proof.
  intros (o & Ho & Hb & Hrest)%is_base_chain_cons. exists o.
  split_and!; [done| |done]. by destruct before.
Qed.

Lemma is_base_chain_last objs anc :
  is_base_chain objs [anc] = true → is_Some (objs !! anc).
Proof. intros (o & Ho & _)%is_base_chain_cons. by exists o. Qed.

Lemma declares_false objs name a o :
  objs !! a = Some o → declares objs name a = false →
  namespace_objects_ o !! name = None.
Proof.
  unfold declares. intros -> H%bool_decide_eq_false.
  by apply eq_None_not_Some.
Qed.

Lemma declares_true objs name a :
  declares objs name a = true →
  ∃ o second, objs !! a = Some o ∧ namespace_objects_ o !! name = Some second.
Proof.
  unfold declares. destruct (objs !! a) as [o|]; [|done].
  intros [second H]%bool_decide_eq_true. by exists o, second.
Qed.

Lemma is_root_true objs a :
  is_root objs a = true → ∃ o, objs !! a = Some o ∧ base_class_ o = None.
Proof.
  unfold is_root. destruct (objs !! a) as [o|]; [|done].
  intros H%bool_decide_eq_true. by exists o.
Qed.

(** One step down a chain whose head lacks the name: destructs the chain
    and the fuel and rewrites with the stepping lemma [step]. *)
Ltac descend Hchain Hlacks Hfuel step :=
  let o := fresh "o" in
  let Ho := fresh "Ho" in
  let Hb := fresh "Hb" in
  let Hn := fresh "Hn" in
  apply is_base_chain_step in Hchain as (o & Ho & Hb & Hchain);
  apply Forall_cons in Hlacks as [Hn Hlacks];
  apply (declares_false _ _ _ _ Ho) in Hn;
  match type of Hfuel with
  | _ < ?fuel => destruct fuel as [|fuel]; [cbn in Hfuel; lia|]
  end;
  rewrite (step _ _ _ Ho); cbn [hd]; rewrite ?Hn, Hb.

Section Walk.
Context (w : World) (name : string).

Lemma HasPropertyInner_found before anc fuel :
  is_base_chain (objects w) (before ++ [anc]) = true →
  Forall (λ a, declares (objects w) name a = false) before →
  declares (objects w) name anc = true →
  length before < fuel →
  HasPropertyInner fuel (hd anc before) name w = Returns true w.
Proof.
  intros Hchain Hlacks Hdecl. revert fuel.
  induction before as [|a before IH]; intros fuel Hfuel.
  - destruct fuel as [|fuel]; [cbn in Hfuel; lia|].
    apply declares_true in Hdecl as (o & second & Ho & Hsecond).
    cbn [hd]. by rewrite (HasPropertyInner_step _ _ _ Ho), Hsecond.
  - descend Hchain Hlacks Hfuel HasPropertyInner_step.
    apply IH; [done..|]. cbn in Hfuel. lia.
Qed.

Lemma GetPropertyInner_found before anc child fuel
    instance exception result :
  is_base_chain (objects w) (before ++ [anc]) = true →
  Forall (λ a, declares (objects w) name a = false) before →
  (∃ o, objects w !! anc = Some o ∧
        namespace_objects_ o !! name = Some (Some child)) →
  is_Some (objects w !! child) →
  length before < fuel →
  GetPropertyInner fuel (hd anc before) instance name exception result w =
  Returns (true, exception, VObject (length (wrappers w)))
    (mkWorld (objects w)
       (wrappers w ++ [mkStaticObjectWrapper instance child])).
Proof.
  intros Hchain Hlacks (o & Ho & Hsecond) [oc Hchild]. revert fuel.
  induction before as [|a before IH]; intros fuel Hfuel.
  - destruct fuel as [|fuel]; [cbn in Hfuel; lia|]. cbn [hd].
    rewrite (GetPropertyInner_step _ _ _ Ho), Hsecond.
    by rewrite (CreateWrapper_live _ _ _ Hchild).
  - descend Hchain Hlacks Hfuel GetPropertyInner_step.
    apply IH; [done|done|]. cbn in Hfuel. lia.
Qed.

Lemma HasPropertyInner_not_found before root fuel :
  is_base_chain (objects w) (before ++ [root]) = true →
  Forall (λ a, declares (objects w) name a = false) (before ++ [root]) →
  is_root (objects w) root = true →
  length before < fuel →
  HasPropertyInner fuel (hd root before) name w = Returns false w.
Proof.
  intros Hchain Hlacks Hroot. revert fuel.
  induction before as [|a before IH]; intros fuel Hfuel.
  - destruct fuel as [|fuel]; [cbn in Hfuel; lia|].
    apply is_root_true in Hroot as (o & Ho & Hb).
    apply Forall_cons in Hlacks as [Hn _].
    apply (declares_false _ _ _ _ Ho) in Hn.
    cbn [hd]. by rewrite (HasPropertyInner_step _ _ _ Ho), Hn, Hb.
  - cbn [app] in Hlacks.
    descend Hchain Hlacks Hfuel HasPropertyInner_step.
    apply IH; [done..|]. cbn in Hfuel. lia.
Qed.

Lemma GetPropertyInner_not_found before root fuel
    instance exception result :
  is_base_chain (objects w) (before ++ [root]) = true →
  Forall (λ a, declares (objects w) name a = false) (before ++ [root]) →
  is_root (objects w) root = true →
  length before < fuel →
  GetPropertyInner fuel (hd root before) instance name exception result w =
  Returns (false,
           if is_null exception then VString "unknown property"
           else exception,
           result) w.
Proof.
  intros Hchain Hlacks Hroot. revert fuel.
  induction before as [|a before IH]; intros fuel Hfuel.
  - destruct fuel as [|fuel]; [cbn in Hfuel; lia|].
    apply is_root_true in Hroot as (o & Ho & Hb).
    apply Forall_cons in Hlacks as [Hn _].
    apply (declares_false _ _ _ _ Ho) in Hn.
    cbn [hd]. by rewrite (GetPropertyInner_step _ _ _ Ho), Hn, Hb.
  - cbn [app] in Hlacks.
    descend Hchain Hlacks Hfuel GetPropertyInner_step.
    apply IH; [done..|]. cbn in Hfuel. lia.
Qed.
End Walk.

(** ** The graph under [AddNamespaceObject] and [SetBaseClass] *)

Lemma is_base_chain_insert_same_base objs a o o' nodes :
  objs !! a = Some o → base_class_ o' = base_class_ o →
  is_base_chain objs nodes = true →
  is_base_chain (<[a := o']> objs) nodes = true.
Proof.
  intros Ha Hbase. induction nodes as [|x rest IH]; [done|].
  rewrite !is_base_chain_cons. intros (ox & Hx & Hb & Hrest).
  destruct (decide (a = x)) as [->|Hne].
  - exists o'. rewrite lookup_insert_eq. simplify_eq.
    split_and!; [done| |by apply IH]. destruct rest; [done|]. congruence.
  - exists ox. rewrite lookup_insert_ne by done. split_and!; auto.
Qed.

Lemma is_base_chain_cut objs pre cut post o' :
  is_base_chain objs (pre ++ cut :: post) = true → cut ∉ pre →
  is_base_chain (<[cut := o']> objs) (pre ++ [cut]) = true.
Proof.
  induction pre as [|a pre IH]; intros Hchain Hnotin.
  - cbn. by rewrite lookup_insert_eq.
  - apply not_elem_of_cons in Hnotin as [Hne Hnotin].
    cbn [app] in *. apply is_base_chain_cons in Hchain as (o & Ho & Hb & Hrest).
    apply is_base_chain_cons. exists o. rewrite lookup_insert_ne by done.
    split_and!; [done| |by apply IH]. by destruct pre.
Qed.

Lemma declares_insert_ne objs a o' name x :
  a ≠ x → declares (<[a := o']> objs) name x = declares objs name x.
Proof. intros Hne. unfold declares. by rewrite lookup_insert_ne. Qed.

Lemma declares_insert_same_children objs a o o' name x :
  objs !! a = Some o → namespace_objects_ o' = namespace_objects_ o →
  declares (<[a := o']> objs) name x = declares objs name x.
Proof.
  intros Ha Hns. unfold declares. destruct (decide (a = x)) as [->|Hne].
  - by rewrite lookup_insert_eq, Ha, Hns.
  - by rewrite lookup_insert_ne.
Qed.

Lemma hd_app_cons {A} (d d' : A) pre cut post :
  hd d (pre ++ cut :: post) = hd d' (pre ++ [cut]).
Proof. by destruct pre. Qed.

(** *** C1 *)

(** C1. Let [before ++ [anc]] be an acyclic base chain of depth
    [length before] whose nodes below [anc] have no child called [name].
    After [AddNamespaceObject(name, child)] on [anc], with enough fuel for
    the depth, [HasPropertyInner] on the leaf returns true and
    [GetPropertyInner] on the leaf returns true with a new wrapper of
    [child] as result and the exception untouched; and after the base link
    of any node [cut] below [anc] is set to [NULL], both report the
    property absent. *)
Theorem C1_property_found_through_base_chain
    (w : World) (before : list addr) (anc child : addr) (name : string)
    (instance : Instance) (exception result : Var) (fuel : nat) :
  is_base_chain (objects w) (before ++ [anc]) = true →
  NoDup (before ++ [anc]) →
  Forall (λ a, declares (objects w) name a = false) before →
  is_Some (objects w !! child) →
  length before < fuel →
  let leaf := hd anc before in
  ∃ w1,
    AddNamespaceObject anc name (Some child) w = Returns tt w1 ∧
    HasPropertyInner fuel leaf name w1 = Returns true w1 ∧
    GetPropertyInner fuel leaf instance name exception result w1 =
      Returns (true, exception, VObject (length (wrappers w1)))
        (mkWorld (objects w1)
           (wrappers w1 ++ [mkStaticObjectWrapper instance child])) ∧
    ∀ (pre : list addr) (cut : addr) (post : list addr),
      before = (pre ++ cut :: post)%list →
      ∃ w2,
        SetBaseClass cut None w1 = Returns tt w2 ∧
        HasPropertyInner fuel leaf name w2 = Returns false w2 ∧
        GetPropertyInner fuel leaf instance name exception result w2 =
          Returns (false,
                   if is_null exception then VString "unknown property"
                   else exception,
                   result) w2.
Proof.
  intros Hchain Hnodup Hlacks Hchild Hfuel leaf.
  assert (∃ o, objects w !! anc = Some o) as [o Ho].
  { clear -Hchain. induction before as [|a before IH].
    - by apply is_base_chain_last in Hchain as [o Ho]; exists o.
    - apply is_base_chain_step in Hchain as (_ & _ & _ & Hchain); auto. }
  set (o1 := mkStaticObject (base_class_ o)
               (<[name := Some child]> (namespace_objects_ o))).
  set (w1 := mkWorld (<[anc := o1]> (objects w)) (wrappers w)).
  assert (anc ∉ before) as Hanc.
  { apply NoDup_app in Hnodup as (_ & Hdisj & _).
    intros Hin. apply (Hdisj _ Hin). by left. }
  assert (is_base_chain (objects w1) (before ++ [anc]) = true) as Hchain1.
  { by apply (is_base_chain_insert_same_base _ _ o). }
  assert (Forall (λ a, declares (objects w1) name a = false) before)
    as Hlacks1.
  { apply Forall_forall. intros x Hx. cbn.
    rewrite declares_insert_ne by (by intros ->).
    by apply (proj1 (Forall_forall _ _) Hlacks). }
  exists w1. split_and!.
  - apply (AddNamespaceObject_live _ _ _ Ho).
  - apply HasPropertyInner_found; [done..| |done].
    unfold declares. cbn. rewrite lookup_insert_eq. cbn.
    rewrite lookup_insert_eq. by apply bool_decide_eq_true.
  - apply GetPropertyInner_found; [done|done| | |done].
    + exists o1. cbn. by rewrite !lookup_insert_eq.
    + cbn. destruct (decide (anc = child)) as [->|Hne].
      * by rewrite lookup_insert_eq.
      * by rewrite lookup_insert_ne.
  - intros pre cut post ->.
    assert ((cut ∉ pre) ∧ (cut ≠ anc)) as [Hcut Hcutanc].
    { rewrite <- app_assoc in Hnodup. cbn in Hnodup.
      apply NoDup_app in Hnodup as (_ & Hdisj & Hnd).
      apply NoDup_cons in Hnd as [Hnd _]. split.
      - intros Hin. apply (Hdisj _ Hin). by left.
      - intros ->. apply Hnd. apply elem_of_app. right. by left. }
    assert (∃ oc, objects w1 !! cut = Some oc) as [oc Hoc].
    { clear -Hchain1. induction pre as [|a pre IH].
      - cbn in Hchain1.
        by apply is_base_chain_cons in Hchain1 as (oc & Hoc & _); exists oc.
      - apply is_base_chain_cons in Hchain1 as (_ & _ & _ & Hchain1); auto. }
    set (o2 := mkStaticObject None (namespace_objects_ oc)).
    set (w2 := mkWorld (<[cut := o2]> (objects w1)) (wrappers w1)).
    assert (is_base_chain (objects w2) (pre ++ [cut]) = true) as Hchain2.
    { rewrite <- app_assoc in Hchain1. cbn [app] in Hchain1.
      by apply (is_base_chain_cut _ _ _ (post ++ [anc])). }
    assert (Forall (λ a, declares (objects w2) name a = false)
              (pre ++ [cut])) as Hlacks2.
    { apply Forall_forall. intros x Hx.
      unfold w2. cbn [objects].
      rewrite (declares_insert_same_children _ _ oc) by done.
      apply (proj1 (Forall_forall _ _) Hlacks1).
      apply elem_of_app in Hx as [Hx|Hx%list_elem_of_singleton].
      - apply elem_of_app. by left.
      - subst x. apply elem_of_app. right. by left. }
    assert (is_root (objects w2) cut = true) as Hroot.
    { unfold is_root, w2. cbn [objects]. by rewrite lookup_insert_eq. }
    assert (length pre < fuel) as Hfuel2.
    { rewrite length_app in Hfuel. lia. }
    assert (leaf = hd cut pre) as ->.
    { unfold leaf. by destruct pre. }
    exists w2. split_and!.
    + apply (SetBaseClass_live _ _ _ Hoc).
    + by apply HasPropertyInner_not_found.
    + by apply GetPropertyInner_not_found.
Qed.

Lemma C1_property_found_through_base_chain_witness :
  ∃ w1,
    AddNamespaceObject 3%positive "x" (Some 4%positive) example_world0 =
      Returns tt w1 ∧
    HasPropertyInner 3 1%positive "x" w1 = Returns true w1 ∧
    ∃ w2,
      SetBaseClass 2%positive None w1 = Returns tt w2 ∧
      HasPropertyInner 3 1%positive "x" w2 = Returns false w2.
Proof.
  destruct (C1_property_found_through_base_chain example_world0
              [1%positive; 2%positive] 3%positive 4%positive "x"
              7%positive VNull VUndefined 3)
    as (w1 & Hadd & Hhas & _ & Hcut).
  - reflexivity.
  - apply (bool_decide_unpack _). vm_compute. reflexivity.
  - repeat constructor.
  - eexists. reflexivity.
  - cbn. lia.
  - exists w1. split; [exact Hadd|]. split; [exact Hhas|].
    destruct (Hcut [1%positive] 2%positive [] eq_refl)
      as (w2 & Hset & Hhas2 & _).
    exists w2. split; [exact Hset|exact Hhas2].
Defined.

(** ** What a returning call has done *)

Lemma CreateWrapper_returns p instance w h w' :
  CreateWrapper p instance w = Returns h w' → objects w' = objects w.
Proof.
  unfold CreateWrapper, mbind, M_bind, bind, deref.
  destruct p as [a|]; [|done]. destruct (objects w !! a); [|done].
  by intros [= _ <-].
Qed.

(** Case analysis on the receiver of a call with fuel [S _]: either it is
    dead and the call faults, or the stepping lemma [step] applies. *)
Ltac on_receiver w this step :=
  let o := fresh "o" in
  let Ho := fresh "Ho" in
  destruct (objects w !! this) as [o|] eqn:Ho;
  [rewrite (step _ _ _ Ho)
  |cbn -[deref]; rewrite (dead_receiver_faults _ _ _ Ho); discriminate].

Lemma HasMethodInner_returns fuel this method w b w' :
  HasMethodInner fuel this method w = Returns b w' → w' = w.
Proof.
  revert this. induction fuel as [|fuel IH]; intros this; [done|].
  on_receiver w this HasMethodInner_step.
  destruct (base_class_ o) as [base|]; [apply IH|]. by intros [= _ <-].
Qed.

Lemma HasPropertyInner_returns fuel this property w b w' :
  HasPropertyInner fuel this property w = Returns b w' → w' = w.
Proof.
  revert this. induction fuel as [|fuel IH]; intros this; [done|].
  on_receiver w this HasPropertyInner_step.
  destruct (namespace_objects_ o !! property); [by intros [= _ <-]|].
  destruct (base_class_ o) as [base|]; [apply IH|]. by intros [= _ <-].
Qed.

Lemma GetPropertyInner_returns fuel this instance property exception result
    w b e r w' :
  GetPropertyInner fuel this instance property exception result w =
    Returns (b, e, r) w' →
  objects w' = objects w ∧
  (b = true → e = exception) ∧
  (is_null exception = false → e = exception).
Proof.
  revert this. induction fuel as [|fuel IH]; intros this; [done|].
  on_receiver w this GetPropertyInner_step.
  destruct (namespace_objects_ o !! property) as [second|].
  - destruct (CreateWrapper second instance w) as [h w''| |] eqn:Hw; [|done..].
    intros [= <- <- <- <-]. by apply CreateWrapper_returns in Hw.
  - destruct (base_class_ o) as [base|]; [apply IH|].
    intros [= <- <- <- <-]. split_and!; [done|done|]. by intros ->.
Qed.

Lemma GetAllPropertyNames_returns fuel this names exception w ns e w' :
  GetAllPropertyNames fuel this names exception w = Returns (ns, e) w' →
  w' = w ∧ ns = names ∧ e = exception.
Proof.
  revert this. induction fuel as [|fuel IH]; intros this; [done|].
  on_receiver w this GetAllPropertyNames_step.
  destruct (base_class_ o) as [base|]; [apply IH|]. by intros [= <- <- <-].
Qed.

Lemma SetPropertyInner_returns fuel this name value exception w b e w' :
  SetPropertyInner fuel this name value exception w = Returns (b, e) w' →
  w' = w ∧ (is_null exception = false → e = exception).
Proof.
  revert this. induction fuel as [|fuel IH]; intros this; [done|].
  on_receiver w this SetPropertyInner_step.
  destruct (base_class_ o) as [base|]; [apply IH|].
  intros [= <- <- <-]. split; [done|]. by intros ->.
Qed.

Lemma CallInner_returns fuel this instance method args exception result
    w b e r w' :
  CallInner fuel this instance method args exception result w =
    Returns (b, e, r) w' →
  w' = w ∧ (is_null exception = false → e = exception).
Proof.
  revert this. induction fuel as [|fuel IH]; intros this; [done|].
  on_receiver w this CallInner_step.
  destruct (base_class_ o) as [base|]; [apply IH|].
  intros [= <- <- <- <-]. split; [done|]. by intros ->.
Qed.

(** *** C2 *)

(** C2. On a base chain that ends in a node with a [NULL] base link and
    none of whose nodes has a child called [name1], [GetPropertyInner]
    returns false, writes ["unknown property"] into the exception slot
    exactly when the slot was null on entry and leaves it as it was
    otherwise; and a second unknown lookup that is handed the slot of the
    first one leaves the single message ["unknown property"] in it. *)
Theorem C2_unknown_property_exception_set_once
    (w : World) (before : list addr) (root : addr) (name1 name2 : string)
    (instance : Instance) (exception result : Var) (fuel : nat) :
  is_base_chain (objects w) (before ++ [root]) = true →
  is_root (objects w) root = true →
  Forall (λ a, declares (objects w) name1 a = false) (before ++ [root]) →
  Forall (λ a, declares (objects w) name2 a = false) (before ++ [root]) →
  length before < fuel →
  let leaf := hd root before in
  GetPropertyInner fuel leaf instance name1 exception result w =
    Returns (false,
             if is_null exception then VString "unknown property"
             else exception,
             result) w ∧
  (GetPropertyInner fuel leaf instance name1 VNull result ≫=
     λ '(_, exception1, result1),
       GetPropertyInner fuel leaf instance name2 exception1 result1) w =
    Returns (false, VString "unknown property", result) w.
Proof.
  intros Hchain Hroot Hlacks1 Hlacks2 Hfuel leaf. split.
  - by apply GetPropertyInner_not_found.
  - unfold mbind, M_bind, bind.
    rewrite (GetPropertyInner_not_found w name1 before root) by done.
    cbn [is_null].
    by rewrite (GetPropertyInner_not_found w name2 before root).
Qed.

Lemma C2_unknown_property_exception_set_once_witness :
  GetPropertyInner 3 1%positive 7%positive "y" VNull VUndefined example_world
    = Returns (false, VString "unknown property", VUndefined) example_world ∧
  (GetPropertyInner 3 1%positive 7%positive "y" VNull VUndefined ≫=
     λ '(_, exception1, result1),
       GetPropertyInner 3 1%positive 7%positive "z" exception1 result1)
    example_world
    = Returns (false, VString "unknown property", VUndefined) example_world.
Proof.
  apply (C2_unknown_property_exception_set_once example_world
           [1%positive; 2%positive] 3%positive "y" "z" 7%positive
           VNull VUndefined 3).
  - reflexivity.
  - reflexivity.
  - repeat constructor.
  - repeat constructor.
  - cbn. lia.
Defined.

(** *** C3 *)

(** C3. [ConstructInner] of the base class returns false with the
    exception slot holding ["missing constructor"], whatever the instance,
    the arguments, the previous contents of the slot and the state; so
    does [Construct] of a wrapper whose target has no override, with an
    undefined result. *)
Theorem C3_construct_always_missing_constructor
    (this : addr) (instance : Instance) (args : list Var)
    (exception result : Var) (w : World) (fuel : nat)
    (wrapper : StaticObjectWrapper) :
  ConstructInner this instance args exception result w =
    Returns (false, VString "missing constructor", result) w ∧
  @Construct (StaticObject_base fuel) wrapper args exception w =
    Returns (VUndefined, VString "missing constructor") w.
Proof. split; reflexivity. Qed.

(** *** C4 *)

(** C4. Whatever the virtual methods of the target are, and whatever is
    put in its [CallInner] slot (a body that faults included), [Call] with
    an undefined method name is [Construct] on the same arguments and
    exception slot: the same result, the same exception and the same
    final state. *)
Theorem C4_call_with_undefined_name_is_construct
    (V : StaticObjectVirtuals)
    (call_inner : addr → Instance → string → list Var → Var → Var →
                  M (bool * Var * Var))
    (this : StaticObjectWrapper) (args : list Var) (exception : Var)
    (w : World) :
  @Call (override_CallInner V call_inner) this VUndefined args exception w =
  @Construct V this args exception w.
Proof. reflexivity. Qed.

(** *** C5 *)

(** C5, as the code has it. For [GetPropertyInner], [SetPropertyInner] and
    [CallInner] of the base class: when the exception slot is not null on
    entry, a call that returns leaves the slot with the value it had. *)
Theorem C5_chain_walks_keep_a_set_exception
    (fuel : nat) (this : addr) (instance : Instance) (name : string)
    (value : Var) (args : list Var) (exception result : Var) (w w' : World) :
  is_null exception = false →
  (∀ b e r,
     GetPropertyInner fuel this instance name exception result w =
       Returns (b, e, r) w' → e = exception) ∧
  (∀ b e,
     SetPropertyInner fuel this name value exception w = Returns (b, e) w' →
     e = exception) ∧
  (∀ b e r,
     CallInner fuel this instance name args exception result w =
       Returns (b, e, r) w' → e = exception).
Proof.
  intros Hset. split_and!.
  - intros b e r H. apply GetPropertyInner_returns in H as (_ & _ & H); auto.
  - intros b e H. apply SetPropertyInner_returns in H as (_ & H); auto.
  - intros b e r H. apply CallInner_returns in H as (_ & H); auto.
Qed.

Lemma C5_chain_walks_keep_a_set_exception_witness :
  SetPropertyInner 3 1%positive "y" (VInt 1) (VString "earlier")
    example_world = Returns (false, VString "earlier") example_world ∧
  ∀ b e,
    SetPropertyInner 3 1%positive "y" (VInt 1) (VString "earlier")
      example_world = Returns (b, e) example_world →
    e = VString "earlier".
Proof.
  split; [reflexivity|].
  apply (C5_chain_walks_keep_a_set_exception 3 1%positive 7%positive "y"
           (VInt 1) [] (VString "earlier") VUndefined
           example_world example_world).
  reflexivity.
Defined.

(** C5 as stated fails: [ConstructInner] and the wrapper's check of the
    method name assign the slot even when it already holds a value. *)
Lemma C5_counterexample_slot_overwritten :
  is_null (VString "earlier") = false ∧
  ConstructInner 1%positive 7%positive [] (VString "earlier") VUndefined
    example_world =
    Returns (false, VString "missing constructor", VUndefined)
      example_world ∧
  @HasMethod (StaticObject_base 3)
    (mkStaticObjectWrapper 7%positive 1%positive) (VInt 0)
    (VString "earlier") example_world =
    Returns (false, VString "method name is not a string") example_world ∧
  ¬ (∀ this instance args exception result w b e r w',
       is_null exception = false →
       ConstructInner this instance args exception result w =
         Returns (b, e, r) w' →
       e = exception).
Proof.
  split_and!; [reflexivity..|].
  intros H.
  specialize (H 1%positive 7%positive [] (VString "earlier") VUndefined
                example_world false (VString "missing constructor")
                VUndefined example_world eq_refl eq_refl).
  discriminate H.
Qed.

(** *** C6 *)

(** C6. On a live node, [AddNamespaceObject(name, A)] followed by
    [AddNamespaceObject(name, B)] makes [GetNamespaceObject(name)] return
    [B], the node ending with [B] under [name] and nothing else changed;
    and [GetNamespaceObject] returns [NULL] for a name that is not among
    the node's own children, whatever its base link leads to. *)
Theorem C6_last_registration_wins_and_lookup_is_direct
    (w : World) (this : addr) (o : StaticObject) (name other : string)
    (A B : ptr) :
  objects w !! this = Some o →
  (AddNamespaceObject this name A ≫= λ _,
   AddNamespaceObject this name B ≫= λ _,
   GetNamespaceObject this name) w =
    Returns B
      (mkWorld
         (<[this := mkStaticObject (base_class_ o)
                      (<[name := B]> (namespace_objects_ o))]> (objects w))
         (wrappers w)) ∧
  (namespace_objects_ o !! other = None →
   GetNamespaceObject this other w = Returns None w).
Proof.
  intros Ho. split.
  - unfold mbind, M_bind, bind.
    rewrite (AddNamespaceObject_live _ _ _ Ho).
    erewrite AddNamespaceObject_live by apply lookup_insert_eq.
    erewrite GetNamespaceObject_live by apply lookup_insert_eq.
    cbn. by rewrite lookup_insert_eq, !insert_insert_eq.
  - intros Hother. by rewrite (GetNamespaceObject_live _ _ _ Ho), Hother.
Qed.

Lemma C6_last_registration_wins_and_lookup_is_direct_witness :
  (∃ w',
     (AddNamespaceObject 1%positive "x" (Some 2%positive) ≫= λ _,
      AddNamespaceObject 1%positive "x" (Some 4%positive) ≫= λ _,
      GetNamespaceObject 1%positive "x") example_world =
       Returns (Some 4%positive) w') ∧
  HasPropertyInner 3 1%positive "x" example_world =
    Returns true example_world ∧
  GetNamespaceObject 1%positive "x" example_world =
    Returns None example_world.
Proof.
  destruct (C6_last_registration_wins_and_lookup_is_direct example_world
              1%positive (mkStaticObject (Some 2%positive) ∅) "x" "x"
              (Some 2%positive) (Some 4%positive) eq_refl)
    as [Hadd Hget].
  split; [eexists; exact Hadd|]. split; [reflexivity|].
  apply Hget. reflexivity.
Defined.

(** *** C10 *)

(** C10. Every resolution operation of the base class that returns leaves
    all nodes of the graph, their children maps and base links, as they
    were; and a [GetPropertyInner] that returns true leaves the exception
    slot with the value it had on entry. *)
Theorem C10_resolution_leaves_the_graph_unchanged
    (fuel : nat) (this : addr) (instance : Instance) (name : string)
    (value : Var) (args names : list Var) (exception result : Var) :
  preserves_objects (HasMethodInner fuel this name) ∧
  preserves_objects (HasPropertyInner fuel this name) ∧
  preserves_objects
    (GetPropertyInner fuel this instance name exception result) ∧
  preserves_objects (SetPropertyInner fuel this name value exception) ∧
  preserves_objects
    (CallInner fuel this instance name args exception result) ∧
  preserves_objects (ConstructInner this instance args exception result) ∧
  preserves_objects (GetAllPropertyNames fuel this names exception) ∧
  (∀ w e r w',
     GetPropertyInner fuel this instance name exception result w =
       Returns (true, e, r) w' → e = exception).
Proof.
  unfold preserves_objects. split_and!.
  - intros w b w' H. by apply HasMethodInner_returns in H as ->.
  - intros w b w' H. by apply HasPropertyInner_returns in H as ->.
  - intros w [[b e] r] w' H. by apply GetPropertyInner_returns in H as [? _].
  - intros w [b e] w' H. by apply SetPropertyInner_returns in H as [-> _].
  - intros w [[b e] r] w' H. by apply CallInner_returns in H as [-> _].
  - intros w a w' H. by injection H as _ <-.
  - intros w [ns e] w' H. by apply GetAllPropertyNames_returns in H as [-> _].
  - intros w e r w' H. apply GetPropertyInner_returns in H as (_ & H & _).
    by apply H.
Qed.

Lemma C10_resolution_leaves_the_graph_unchanged_witness :
  GetPropertyInner 3 1%positive 7%positive "x" VNull VUndefined
    example_world =
    Returns (true, VNull, VObject 0)
      (mkWorld example_objects
         [mkStaticObjectWrapper 7%positive 4%positive]) ∧
  preserves_objects
    (GetPropertyInner 3 1%positive 7%positive "x" VNull VUndefined).
Proof.
  split; [reflexivity|].
  apply (C10_resolution_leaves_the_graph_unchanged 3 1%positive 7%positive
           "x" VNull [] [] VNull VUndefined).
Defined.

Example Call_undefined_is_not_a_call_named_undefined :
  @Call (StaticObject_base 3) (mkStaticObjectWrapper 7%positive 1%positive)
    VUndefined [] VNull example_world =
    Returns (VUndefined, VString "missing constructor") example_world ∧
  @Call (StaticObject_base 3) (mkStaticObjectWrapper 7%positive 1%positive)
    (VString "undefined") [] VNull example_world =
    Returns (VUndefined, VString "method does not exist") example_world.
Proof. split; reflexivity. Qed.

(** ** NPAPI: strings *)

Import Npapi.

Lemma char_of_wchar_of_char (c : byte) : char_of_wchar (wchar_of_char c) = c.
Proof. destruct c; reflexivity. Qed.

Lemma narrow_widen (s : list byte) :
  map char_of_wchar (map wchar_of_char s) = s.
Proof.
  induction s as [|c rest IH]; [done|].
  cbn [map]. by rewrite char_of_wchar_of_char, IH.
Qed.

Lemma c_str_has_no_NUL (buffer : list byte) : NUL ∉ c_str is_NUL buffer.
Proof.
  induction buffer as [|c rest IH]; cbn.
  - apply not_elem_of_nil.
  - destruct (is_NUL c) eqn:Hc; [apply not_elem_of_nil|].
    apply not_elem_of_cons. split; [|done].
    intros <-. discriminate Hc.
Qed.

(** Both conversions succeed on an empty input with an empty output, on
    every platform and whatever the platform's services would answer. *)
Lemma conversions_of_empty_input platform api out16 out8 :
  UTF8ToString16 platform api [] out16 = (true, []) ∧
  String16ToUTF8 platform api [] out8 = (true, []).
Proof. split; reflexivity. Qed.

(** The Linux bodies widen and narrow character by character, so the round
    trip returns its input, for every byte sequence. *)
Lemma utf8_round_trip_linux api (in_ : list byte) :
  utf8_round_trip OS_LINUX api in_ = Some in_.
Proof.
  unfold utf8_round_trip, UTF8ToString16, String16ToUTF8.
  destruct in_ as [|c rest]; [done|].
  assert (∀ n, (Z.of_nat (S n) =? 0)%Z = false) as Hnonempty
    by (intros n; apply Z.eqb_neq; lia).
  cbn [length]. rewrite Hnonempty. cbn [map length]. rewrite Hnonempty.
  f_equal. apply (narrow_widen (c :: rest)).
Qed.

(** On Windows and on the Mac the second conversion assigns its output
    from a C string, so a successful round trip never yields a NUL. *)
Lemma utf8_round_trip_has_no_NUL platform api (in_ out : list byte) :
  platform ≠ OS_LINUX →
  utf8_round_trip platform api in_ = Some out → NUL ∉ out.
Proof.
  intros Hplatform. unfold utf8_round_trip.
  destruct (UTF8ToString16 platform api in_ []) as [[|] s16]; [|done].
  unfold String16ToUTF8.
  destruct (Z.of_nat (length s16) =? 0)%Z.
  { intros [= <-]. apply not_elem_of_nil. }
  destruct platform; [| |done].
  - destruct (Z.of_nat (length (CF_UTF32_to_UTF8 api s16)) <=? 0)%Z; [done|].
    intros [= <-]. apply c_str_has_no_NUL.
  - destruct (WideCharToMultiByte api s16) as [tmp|]; [|done].
    destruct (Z.of_nat (length tmp) <=? 0)%Z; [done|].
    intros [= <-]. apply c_str_has_no_NUL.
Qed.

Lemma c_str_without_NUL (s : list byte) :
  NUL ∉ s → c_str is_NUL (s ++ [NUL]) = s.
Proof.
  induction s as [|c rest IH]; [done|].
  intros [Hc Hrest]%not_elem_of_cons. cbn.
  destruct (is_NUL c) eqn:Hnul.
  - by destruct c.
  - by rewrite IH.
Qed.

Lemma c_str_without_WNUL (s : list wchar_t) :
  WNUL ∉ s → c_str is_WNUL (s ++ [WNUL]) = s.
Proof.
  induction s as [|c rest IH]; [done|].
  intros [Hc Hrest]%not_elem_of_cons. cbn.
  destruct (is_WNUL c) eqn:Hnul.
  - by apply Z.eqb_eq in Hnul.
  - by rewrite IH.
Qed.

Lemma nonempty_length {A} (l : list A) :
  l ≠ [] → (Z.of_nat (length l) =? 0)%Z = false ∧
           (Z.of_nat (length l) <=? 0)%Z = false.
Proof.
  destruct l; [done|]. intros _. cbn [length].
  split; [apply Z.eqb_neq|apply Z.leb_gt]; lia.
Qed.

(** On Windows the round trip returns a non-empty input without NUL when
    the two services of the platform invert each other on it and the wide
    text has no NUL either. *)
Lemma utf8_round_trip_windows api (in_ : list byte) (wide : list wchar_t) :
  in_ ≠ [] → NUL ∉ in_ → wide ≠ [] → WNUL ∉ wide →
  MultiByteToWideChar api in_ = Some wide →
  WideCharToMultiByte api wide = Some in_ →
  utf8_round_trip OS_WINDOWS api in_ = Some in_.
Proof.
  intros [Hin Hin']%nonempty_length Hnul [Hwide Hwide']%nonempty_length
    Hwnul Hto Hfrom.
  unfold utf8_round_trip, UTF8ToString16, String16ToUTF8.
  rewrite Hin, Hto, Hwide', (c_str_without_WNUL _ Hwnul).
  by rewrite Hwide, Hfrom, Hin', (c_str_without_NUL _ Hnul).
Qed.

(** The same on the Mac. *)
Lemma utf8_round_trip_macosx api (in_ : list byte) (wide : list wchar_t) :
  in_ ≠ [] → NUL ∉ in_ → wide ≠ [] → WNUL ∉ wide →
  CF_UTF8_to_UTF32 api in_ = Some wide →
  CF_UTF32_to_UTF8 api wide = in_ →
  utf8_round_trip OS_MACOSX api in_ = Some in_.
Proof.
  intros [Hin Hin']%nonempty_length Hnul [Hwide Hwide']%nonempty_length
    Hwnul Hto Hfrom.
  unfold utf8_round_trip, UTF8ToString16, String16ToUTF8.
  rewrite Hin, (c_str_without_NUL _ Hnul), Hto.
  rewrite (c_str_without_WNUL _ Hwnul).
  by rewrite Hwide, Hfrom, Hin', (c_str_without_NUL _ Hnul).
Qed.

(** *** C7 *)

(** C7 fails on the Windows and Mac bodies: whatever the conversion
    services of the platform answer, encoding the three valid UTF-8 bytes
    [a], NUL, [b] and decoding the result does not give them back. *)
Theorem C7_round_trip_loses_text_after_NUL (api : PlatformApi) :
  utf8_round_trip OS_WINDOWS api [x61; x00; x62] ≠ Some [x61; x00; x62] ∧
  utf8_round_trip OS_MACOSX api [x61; x00; x62] ≠ Some [x61; x00; x62].
Proof.
  split; intros H; apply utf8_round_trip_has_no_NUL in H; try done;
    apply H; right; left.
Qed.

(** ** NPAPI: memory *)

Local Open Scope Z_scope.

Lemma write_bytes_below (src : list byte) (m : memory) (dst a : pointer) :
  (a < dst)%Z → write_bytes m dst src a = m a.
Proof.
  revert m dst. induction src as [|b rest IH]; intros m dst Ha; [done|].
  cbn [write_bytes]. rewrite IH by lia.
  by replace (a =? dst)%Z with false by (symmetry; apply Z.eqb_neq; lia).
Qed.

Lemma read_bytes_write_bytes (src : list byte) (m : memory) (dst : pointer) :
  read_bytes (write_bytes m dst src) dst (length src) = src.
Proof.
  revert m dst. induction src as [|b rest IH]; intros m dst; [done|].
  cbn [write_bytes length read_bytes]. rewrite IH. f_equal.
  rewrite write_bytes_below by lia. by rewrite Z.eqb_refl.
Qed.

(** *** C8 *)

(** C8. Against every browser and in every state, [StringToNPVariant] on
    a string of [L] bytes makes one browser call, [NPN_MemAlloc(L)]. When
    the answer is [NULL] it returns false with the variant void and writes
    nothing; otherwise it returns true with the variant a string of length
    [L] at the address answered, where memory then holds the [L] bytes of
    the input. This includes [L = 0]. *)
Theorem C8_StringToNPVariant_allocates_the_length
    (B : Browser) (in_ : list byte) (variant : NPVariant)
    (s : memory * browser_state B) :
  let L := Z.of_nat (length in_) in
  let chars := fst (answer B _ (NPN_MemAlloc L) s) in
  let s1 := snd (answer B _ (NPN_MemAlloc L) s) in
  run B (StringToNPVariant in_ variant) s =
    (if (chars =? NULL)%Z
     then (false, NPVoid, s1)
     else (true, NPString chars L, (write_bytes (fst s1) chars in_, snd s1)),
     [called (NPN_MemAlloc L)]) ∧
  read_bytes (write_bytes (fst s1) chars in_) chars (length in_) = in_.
Proof.
  intros L chars s1. split; [|apply read_bytes_write_bytes].
  unfold StringToNPVariant, chars, s1, L. cbn.
  destruct (answer B _ (NPN_MemAlloc (Z.of_nat (length in_))) s)
    as [p s']. cbn.
  by destruct (p =? NULL)%Z.
Qed.

Example StringToNPVariant_examples :
  fst (fst (run example_browser (StringToNPVariant [x68; x69] NPNull)
              example_state))
    = (true, NPString 4096 2) ∧
  snd (run example_browser (StringToNPVariant [x68; x69] NPNull)
         example_state)
    = [called (NPN_MemAlloc 2)] ∧
  fst (fst (run example_browser (StringToNPVariant [] NPNull) example_state))
    = (true, NPString 4096 0) ∧
  fst (fst (run example_browser
              (StringToNPVariant (replicate 17%nat x61) NPNull) example_state))
    = (false, NPVoid).
Proof. split_and!; reflexivity. Qed.

(** *** C9 *)

(** C9. Against every browser and in every state:
      - with the workaround, [GetNPArrayProperty] makes two calls, the
        identifier lookup and [NPN_GetProperty], and returns what the
        latter answered;
      - without it, it looks the identifier up, calls [NPN_HasProperty]
        and, when that answers false, returns false with the output
        untouched and no [NPN_GetProperty]; otherwise it fetches and
        returns the answer;
      - [GetNPObjectProperty] does the same as the latter for a name. *)
Theorem C9_property_helpers_probe_before_fetching
    (B : Browser) (npp : NPP) (object : pointer) (index : Z) (name : string)
    (output : NPVariant) (s : memory * browser_state B) :
  (let '(id, s1) := answer B _ (NPN_GetIntIdentifier index) s in
   let '(fetched, s2) := answer B _ (NPN_GetProperty npp object id output) s1
   in
   run B (GetNPArrayProperty true npp object index output) s =
     (fetched, s2,
      [called (NPN_GetIntIdentifier index);
       called (NPN_GetProperty npp object id output)])) ∧
  (let '(id, s1) := answer B _ (NPN_GetIntIdentifier index) s in
   let '(found, s2) := answer B _ (NPN_HasProperty npp object id) s1 in
   let '(fetched, s3) := answer B _ (NPN_GetProperty npp object id output) s2
   in
   run B (GetNPArrayProperty false npp object index output) s =
     if found
     then (fetched, s3,
           [called (NPN_GetIntIdentifier index);
            called (NPN_HasProperty npp object id);
            called (NPN_GetProperty npp object id output)])
     else ((false, output), s2,
           [called (NPN_GetIntIdentifier index);
            called (NPN_HasProperty npp object id)])) ∧
  (let '(id, s1) := answer B _ (NPN_GetStringIdentifier name) s in
   let '(found, s2) := answer B _ (NPN_HasProperty npp object id) s1 in
   let '(fetched, s3) := answer B _ (NPN_GetProperty npp object id output) s2
   in
   run B (GetNPObjectProperty npp object name output) s =
     if found
     then (fetched, s3,
           [called (NPN_GetStringIdentifier name);
            called (NPN_HasProperty npp object id);
            called (NPN_GetProperty npp object id output)])
     else ((false, output), s2,
           [called (NPN_GetStringIdentifier name);
            called (NPN_HasProperty npp object id)])).
Proof.
  split_and!.
  - unfold GetNPArrayProperty. cbn.
    destruct (answer B _ (NPN_GetIntIdentifier index) s) as [id s1]. cbn.
    by destruct (answer B _ (NPN_GetProperty npp object id output) s1).
  - unfold GetNPArrayProperty. cbn.
    destruct (answer B _ (NPN_GetIntIdentifier index) s) as [id s1]. cbn.
    destruct (answer B _ (NPN_HasProperty npp object id) s1)
      as [[|] s2]; cbn;
      by destruct (answer B _ (NPN_GetProperty npp object id output) s2).
  - unfold GetNPObjectProperty. cbn.
    destruct (answer B _ (NPN_GetStringIdentifier name) s) as [id s1]. cbn.
    destruct (answer B _ (NPN_HasProperty npp object id) s1)
      as [[|] s2]; cbn;
      by destruct (answer B _ (NPN_GetProperty npp object id output) s2).
Qed.

(** Index 1 of the example browser exists but cannot be fetched, index 5
    does not exist: the helper returns false in both modes, and with the
    workaround it has not probed. *)
Example GetNPArrayProperty_examples :
  let calls {A} (r : A * (memory * Z) * list event) := snd r in
  let value {A} (r : A * (memory * Z) * list event) := fst (fst r) in
  value (run example_browser (GetNPArrayProperty true 1 2 1 NPVoid)
           example_state) = (false, NPVoid) ∧
  calls (run example_browser (GetNPArrayProperty true 1 2 1 NPVoid)
           example_state) =
    [called (NPN_GetIntIdentifier 1); called (NPN_GetProperty 1 2 1 NPVoid)] ∧
  value (run example_browser (GetNPArrayProperty false 1 2 5 NPVoid)
           example_state) = (false, NPVoid) ∧
  calls (run example_browser (GetNPArrayProperty false 1 2 5 NPVoid)
           example_state) =
    [called (NPN_GetIntIdentifier 5); called (NPN_HasProperty 1 2 5)] ∧
  value (run example_browser (GetNPArrayProperty false 1 2 0 NPVoid)
           example_state) = (true, NPInt32 42).
Proof. split_and!; reflexivity. Qed.

(** ** Further properties of the static object graph *)

Local Close Scope Z_scope.
Import Ppapi.

(** One step down a chain for the operations that only follow the base
    link: destructs the chain and the fuel and rewrites with [step]. *)
Ltac follow_base Hchain Hfuel step :=
  let o := fresh "o" in
  let Ho := fresh "Ho" in
  let Hb := fresh "Hb" in
  apply is_base_chain_step in Hchain as (o & Ho & Hb & Hchain);
  match type of Hfuel with
  | _ < ?fuel => destruct fuel as [|fuel]; [cbn in Hfuel; lia|]
  end;
  rewrite (step _ _ _ Ho); cbn [hd]; rewrite Hb.

(** At the root of a chain: the fuel is positive and [step] applies. *)
Ltac at_root Hroot Hfuel step :=
  let o := fresh "o" in
  let Ho := fresh "Ho" in
  let Hb := fresh "Hb" in
  match type of Hfuel with
  | _ < ?fuel => destruct fuel as [|fuel]; [cbn in Hfuel; lia|]
  end;
  apply is_root_true in Hroot as (o & Ho & Hb);
  cbn [hd]; rewrite (step _ _ _ Ho), Hb.

Section TerminatedChain.
Context (w : World) (before : list addr) (root : addr).
Hypothesis Hchain : is_base_chain (objects w) (before ++ [root]) = true.
Hypothesis Hroot : is_root (objects w) root = true.

Lemma HasMethodInner_on_chain fuel method :
  length before < fuel →
  HasMethodInner fuel (hd root before) method w = Returns false w.
Proof.
  revert fuel Hchain. induction before as [|a rest IH]; intros fuel Hc Hfuel.
  - by at_root Hroot Hfuel HasMethodInner_step.
  - follow_base Hc Hfuel HasMethodInner_step.
    apply IH; [done|]. cbn in Hfuel. lia.
Qed.

Lemma GetAllPropertyNames_on_chain fuel names exception :
  length before < fuel →
  GetAllPropertyNames fuel (hd root before) names exception w =
    Returns (names, exception) w.
Proof.
  revert fuel Hchain. induction before as [|a rest IH]; intros fuel Hc Hfuel.
  - by at_root Hroot Hfuel GetAllPropertyNames_step.
  - follow_base Hc Hfuel GetAllPropertyNames_step.
    apply IH; [done|]. cbn in Hfuel. lia.
Qed.

Lemma SetPropertyInner_on_chain fuel name value exception :
  length before < fuel →
  SetPropertyInner fuel (hd root before) name value exception w =
    Returns (false,
             if is_null exception then VString "unknown property"
             else exception) w.
Proof.
  revert fuel Hchain. induction before as [|a rest IH]; intros fuel Hc Hfuel.
  - by at_root Hroot Hfuel SetPropertyInner_step.
  - follow_base Hc Hfuel SetPropertyInner_step.
    apply IH; [done|]. cbn in Hfuel. lia.
Qed.

Lemma CallInner_on_chain fuel instance method args exception result :
  length before < fuel →
  CallInner fuel (hd root before) instance method args exception result w =
    Returns (false,
             if is_null exception then VString "method does not exist"
             else exception,
             result) w.
Proof.
  revert fuel Hchain. induction before as [|a rest IH]; intros fuel Hc Hfuel.
  - by at_root Hroot Hfuel CallInner_step.
  - follow_base Hc Hfuel CallInner_step.
    apply IH; [done|]. cbn in Hfuel. lia.
Qed.
End TerminatedChain.

Lemma HasMethodInner_false fuel this method w b w' :
  HasMethodInner fuel this method w = Returns b w' → b = false.
Proof.
  revert this. induction fuel as [|fuel IH]; intros this; [done|].
  on_receiver w this HasMethodInner_step.
  destruct (base_class_ o) as [base|]; [apply IH|]. by intros [= <- _].
Qed.

Lemma SetPropertyInner_false fuel this name value exception w b e w' :
  SetPropertyInner fuel this name value exception w = Returns (b, e) w' →
  b = false.
Proof.
  revert this. induction fuel as [|fuel IH]; intros this; [done|].
  on_receiver w this SetPropertyInner_step.
  destruct (base_class_ o) as [base|]; [apply IH|]. by intros [= <- _ _].
Qed.

Lemma CallInner_false fuel this instance method args exception result
    w b e r w' :
  CallInner fuel this instance method args exception result w =
    Returns (b, e, r) w' →
  b = false ∧ r = result.
Proof.
  revert this. induction fuel as [|fuel IH]; intros this; [done|].
  on_receiver w this CallInner_step.
  destruct (base_class_ o) as [base|]; [apply IH|]. by intros [= <- _ <- _].
Qed.

(** X1. The base class has no methods. On a chain of plain objects that
    ends in a [NULL] base link, [HasMethodInner] returns false for every
    method name given fuel above the depth, and so does [HasMethod] of a
    wrapper of the leaf, with the exception slot untouched; and on any
    graph at all a [HasMethodInner] that returns never returns true. *)
Theorem X1_base_class_has_no_methods
    (w : World) (before : list addr) (root : addr) (method : string)
    (instance : Instance) (exception : Var) (fuel : nat) :
  is_base_chain (objects w) (before ++ [root]) = true →
  is_root (objects w) root = true →
  length before < fuel →
  let leaf := hd root before in
  HasMethodInner fuel leaf method w = Returns false w ∧
  @HasMethod (StaticObject_base fuel) (mkStaticObjectWrapper instance leaf)
    (VString method) exception w = Returns (false, exception) w ∧
  (∀ fuel' this b w',
     HasMethodInner fuel' this method w = Returns b w' → b = false).
Proof.
  intros Hchain Hroot Hfuel leaf. split_and!.
  - by apply HasMethodInner_on_chain.
  - unfold HasMethod, mbind, M_bind, bind. cbn.
    by rewrite (HasMethodInner_on_chain w before root).
  - intros fuel' this b w'. apply HasMethodInner_false.
Qed.

Lemma X1_base_class_has_no_methods_witness :
  HasMethodInner 3 1%positive "toString" example_world =
    Returns false example_world.
Proof.
  apply (X1_base_class_has_no_methods example_world
           [1%positive; 2%positive] 3%positive "toString" 7%positive
           VNull 3).
  - reflexivity.
  - reflexivity.
  - cbn. lia.
Defined.

(** X2. The base class has no writable property. On a chain that ends in
    a [NULL] base link [SetPropertyInner] returns false for every name and
    value, with ["unknown property"] in a slot that was null and any other
    slot as it was, even for the name of a registered child; [SetProperty]
    of a wrapper of the leaf leaves the same slot; and on any graph a
    [SetPropertyInner] that returns never returns true. *)
Theorem X2_base_class_rejects_every_assignment
    (w : World) (before : list addr) (root : addr) (name : string)
    (value : Var) (instance : Instance) (exception : Var) (fuel : nat) :
  is_base_chain (objects w) (before ++ [root]) = true →
  is_root (objects w) root = true →
  length before < fuel →
  let leaf := hd root before in
  let slot :=
    if is_null exception then VString "unknown property" else exception in
  SetPropertyInner fuel leaf name value exception w =
    Returns (false, slot) w ∧
  @SetProperty (StaticObject_base fuel) (mkStaticObjectWrapper instance leaf)
    (VString name) value exception w = Returns slot w ∧
  (∀ fuel' this b e w',
     SetPropertyInner fuel' this name value exception w = Returns (b, e) w' →
     b = false).
Proof.
  intros Hchain Hroot Hfuel leaf slot. split_and!.
  - by apply SetPropertyInner_on_chain.
  - unfold SetProperty, mbind, M_bind, bind. cbn.
    by rewrite (SetPropertyInner_on_chain w before root).
  - intros fuel' this b e w'. apply SetPropertyInner_false.
Qed.

Lemma X2_base_class_rejects_every_assignment_witness :
  SetPropertyInner 3 1%positive "x" (VInt 5) VNull example_world =
    Returns (false, VString "unknown property") example_world.
Proof.
  apply (X2_base_class_rejects_every_assignment example_world
           [1%positive; 2%positive] 3%positive "x" (VInt 5) 7%positive
           VNull 3).
  - reflexivity.
  - reflexivity.
  - cbn. lia.
Defined.

(** X3. The base class dispatches no call. On a chain that ends in a
    [NULL] base link [CallInner] returns false for every method name and
    argument list, with ["method does not exist"] in a slot that was null
    and any other slot as it was, and leaves the result as given; [Call] of
    a wrapper of the leaf with a string name returns undefined with that
    slot; and on any graph a [CallInner] that returns never returns true
    and never writes the result. *)
Theorem X3_base_class_dispatches_no_call
    (w : World) (before : list addr) (root : addr) (method : string)
    (args : list Var) (instance : Instance) (exception result : Var)
    (fuel : nat) :
  is_base_chain (objects w) (before ++ [root]) = true →
  is_root (objects w) root = true →
  length before < fuel →
  let leaf := hd root before in
  let slot :=
    if is_null exception then VString "method does not exist"
    else exception in
  CallInner fuel leaf instance method args exception result w =
    Returns (false, slot, result) w ∧
  @Call (StaticObject_base fuel) (mkStaticObjectWrapper instance leaf)
    (VString method) args exception w = Returns (VUndefined, slot) w ∧
  (∀ fuel' this b e r w',
     CallInner fuel' this instance method args exception result w =
       Returns (b, e, r) w' →
     b = false ∧ r = result).
Proof.
  intros Hchain Hroot Hfuel leaf slot. split_and!.
  - by apply CallInner_on_chain.
  - unfold Call, mbind, M_bind, bind. cbn.
    by rewrite (CallInner_on_chain w before root).
  - intros fuel' this b e r w'. apply CallInner_false.
Qed.

Lemma X3_base_class_dispatches_no_call_witness :
  @Call (StaticObject_base 3) (mkStaticObjectWrapper 7%positive 1%positive)
    (VString "x") [VInt 1] VNull example_world =
    Returns (VUndefined, VString "method does not exist") example_world.
Proof.
  apply (X3_base_class_dispatches_no_call example_world
           [1%positive; 2%positive] 3%positive "x" [VInt 1] 7%positive
           VNull VUndefined 3).
  - reflexivity.
  - reflexivity.
  - cbn. lia.
Defined.

(** X4. The base class enumerates nothing. On a chain that ends in a
    [NULL] base link [GetAllPropertyNames] returns the list of names and
    the exception slot exactly as given, whatever children the nodes of the
    chain have, and so does the wrapper's [GetAllPropertyNames]. *)
Theorem X4_base_class_enumerates_no_name
    (w : World) (before : list addr) (root : addr) (names : list Var)
    (instance : Instance) (exception : Var) (fuel : nat) :
  is_base_chain (objects w) (before ++ [root]) = true →
  is_root (objects w) root = true →
  length before < fuel →
  let leaf := hd root before in
  GetAllPropertyNames fuel leaf names exception w =
    Returns (names, exception) w ∧
  @Wrapper_GetAllPropertyNames (StaticObject_base fuel)
    (mkStaticObjectWrapper instance leaf) names exception w =
    Returns (names, exception) w.
Proof.
  intros Hchain Hroot Hfuel leaf.
  split; by apply GetAllPropertyNames_on_chain.
Qed.

Lemma X4_base_class_enumerates_no_name_witness :
  HasPropertyInner 3 1%positive "x" example_world =
    Returns true example_world ∧
  GetAllPropertyNames 3 1%positive [VString "seen"] VNull example_world =
    Returns ([VString "seen"], VNull) example_world.
Proof.
  split; [reflexivity|].
  apply (X4_base_class_enumerates_no_name example_world
           [1%positive; 2%positive] 3%positive [VString "seen"] 7%positive
           VNull 3).
  - reflexivity.
  - reflexivity.
  - cbn. lia.
Defined.

Lemma GetPropertyInner_then_HasPropertyInner fuel this instance name
    exception result w b e r w' :
  GetPropertyInner fuel this instance name exception result w =
    Returns (b, e, r) w' →
  HasPropertyInner fuel this name w = Returns b w.
Proof.
  revert this. induction fuel as [|fuel IH]; intros this; [done|].
  on_receiver w this GetPropertyInner_step.
  rewrite (HasPropertyInner_step _ _ _ Ho).
  destruct (namespace_objects_ o !! name) as [second|].
  - destruct (CreateWrapper second instance w); [|done..].
    by intros [= <- _ _ _].
  - destruct (base_class_ o) as [base|]; [apply IH|]. by intros [= <- _ _ _].
Qed.

Lemma HasPropertyInner_false_then_GetPropertyInner fuel this instance name
    exception result w w' :
  HasPropertyInner fuel this name w = Returns false w' →
  GetPropertyInner fuel this instance name exception result w =
    Returns (false,
             if is_null exception then VString "unknown property"
             else exception,
             result) w.
Proof.
  revert this. induction fuel as [|fuel IH]; intros this; [done|].
  on_receiver w this HasPropertyInner_step.
  rewrite (GetPropertyInner_step _ _ _ Ho).
  destruct (namespace_objects_ o !! name) as [second|]; [done|].
  destruct (base_class_ o) as [base|]; [apply IH|done].
Qed.

(** X5. [HasPropertyInner] and [GetPropertyInner] agree on every graph and
    for every fuel: whenever [GetPropertyInner] returns, [HasPropertyInner]
    returns the same boolean; and whenever [HasPropertyInner] returns
    false, [GetPropertyInner] returns false, with the result as given and
    ["unknown property"] in a slot that was null. *)
Theorem X5_has_property_agrees_with_get_property
    (fuel : nat) (this : addr) (instance : Instance) (name : string)
    (exception result : Var) (w : World) :
  (∀ b e r w',
     GetPropertyInner fuel this instance name exception result w =
       Returns (b, e, r) w' →
     HasPropertyInner fuel this name w = Returns b w) ∧
  (∀ w',
     HasPropertyInner fuel this name w = Returns false w' →
     GetPropertyInner fuel this instance name exception result w =
       Returns (false,
                if is_null exception then VString "unknown property"
                else exception,
                result) w).
Proof.
  split.
  - intros b e r w'. apply GetPropertyInner_then_HasPropertyInner.
  - intros w'. apply HasPropertyInner_false_then_GetPropertyInner.
Qed.

Lemma X5_has_property_agrees_with_get_property_witness :
  HasPropertyInner 3 1%positive "x" example_world =
    Returns true example_world ∧
  GetPropertyInner 3 1%positive 7%positive "y" VNull VUndefined
    example_world =
    Returns (false, VString "unknown property", VUndefined) example_world.
Proof.
  destruct (X5_has_property_agrees_with_get_property 3 1%positive
              7%positive "x" VNull VUndefined example_world) as [Hget _].
  destruct (X5_has_property_agrees_with_get_property 3 1%positive
              7%positive "y" VNull VUndefined example_world) as [_ Hhas].
  split.
  - eapply Hget. reflexivity.
  - apply (Hhas example_world). reflexivity.
Defined.

(** X6. The nearest node that has the name decides. When the nodes of a
    chain below [anc] have no child called [name] and [anc] has the live
    child [child] under it, [HasPropertyInner] on the leaf returns true and
    [GetPropertyInner] returns a new wrapper of [child], whatever lies
    beyond [anc]: another child of the same name further up, a dangling
    base link or a cycle. *)
Theorem X6_nearest_declaring_node_wins
    (w : World) (before : list addr) (anc child : addr) (o : StaticObject)
    (name : string) (instance : Instance) (exception result : Var)
    (fuel : nat) :
  is_base_chain (objects w) (before ++ [anc]) = true →
  Forall (λ a, declares (objects w) name a = false) before →
  objects w !! anc = Some o →
  namespace_objects_ o !! name = Some (Some child) →
  is_Some (objects w !! child) →
  length before < fuel →
  HasPropertyInner fuel (hd anc before) name w = Returns true w ∧
  GetPropertyInner fuel (hd anc before) instance name exception result w =
    Returns (true, exception, VObject (length (wrappers w)))
      (mkWorld (objects w)
         (wrappers w ++ [mkStaticObjectWrapper instance child])).
Proof.
  intros Hchain Hlacks Ho Hname Hchild Hfuel. split.
  - apply HasPropertyInner_found; [done..| |done].
    unfold declares. rewrite Ho, Hname. by apply bool_decide_eq_true.
  - apply GetPropertyInner_found; [done..| |done|done]. by exists o.
Qed.

Lemma X6_nearest_declaring_node_wins_witness :
  HasMethodInner 50 1%positive "x" example_cyclic_world = OutOfFuel ∧
  GetPropertyInner 2 1%positive 7%positive "x" VNull VUndefined
    example_cyclic_world =
    Returns (true, VNull, VObject 0)
      (mkWorld (objects example_cyclic_world)
         [mkStaticObjectWrapper 7%positive 4%positive]).
Proof.
  split; [reflexivity|].
  apply (X6_nearest_declaring_node_wins example_cyclic_world [1%positive]
           2%positive 4%positive
           (mkStaticObject (Some 2%positive) (<["x" := Some 4%positive]> ∅))
           "x" 7%positive VNull VUndefined 2).
  - reflexivity.
  - repeat constructor.
  - reflexivity.
  - reflexivity.
  - eexists. reflexivity.
  - cbn. lia.
Defined.

(** X7. Wrappers are not cached. Two successive successful
    [GetPropertyInner] calls for the same name allocate two wrappers of the
    same child and instance and return two different handles, the second
    one above the first; the exception slot passes through both. *)
Theorem X7_every_get_allocates_a_new_wrapper
    (w : World) (before : list addr) (anc child : addr) (o : StaticObject)
    (name : string) (instance : Instance) (exception result : Var)
    (fuel : nat) :
  is_base_chain (objects w) (before ++ [anc]) = true →
  Forall (λ a, declares (objects w) name a = false) before →
  objects w !! anc = Some o →
  namespace_objects_ o !! name = Some (Some child) →
  is_Some (objects w !! child) →
  length before < fuel →
  let leaf := hd anc before in
  let wrapper := mkStaticObjectWrapper instance child in
  (GetPropertyInner fuel leaf instance name exception result ≫=
     λ '(_, exception1, result1),
       GetPropertyInner fuel leaf instance name exception1 result1 ≫=
         λ '(_, exception2, result2), mret (result1, result2, exception2)) w =
    Returns (VObject (length (wrappers w)),
             VObject (S (length (wrappers w))), exception)
      (mkWorld (objects w) (wrappers w ++ [wrapper; wrapper])).
Proof.
  intros Hchain Hlacks Ho Hname Hchild Hfuel leaf wrapper.
  unfold mbind, M_bind, bind.
  rewrite (GetPropertyInner_found w name before anc child) by eauto.
  rewrite (GetPropertyInner_found _ name before anc child) by eauto.
  cbn. unfold mret, M_ret, ret. rewrite length_app, <- app_assoc. cbn.
  by rewrite Nat.add_1_r.
Qed.

Lemma X7_every_get_allocates_a_new_wrapper_witness :
  (GetPropertyInner 3 1%positive 7%positive "x" VNull VUndefined ≫=
     λ '(_, exception1, result1),
       GetPropertyInner 3 1%positive 7%positive "x" exception1 result1 ≫=
         λ '(_, exception2, result2), mret (result1, result2, exception2))
    example_world =
    Returns (VObject 0, VObject 1, VNull)
      (mkWorld example_objects
         [mkStaticObjectWrapper 7%positive 4%positive;
          mkStaticObjectWrapper 7%positive 4%positive]).
Proof.
  apply (X7_every_get_allocates_a_new_wrapper example_world
           [1%positive; 2%positive] 3%positive 4%positive
           (mkStaticObject None (<["x" := Some 4%positive]> ∅))
           "x" 7%positive VNull VUndefined 3).
  - reflexivity.
  - repeat constructor.
  - reflexivity.
  - reflexivity.
  - eexists. reflexivity.
  - cbn. lia.
Defined.

(** X8. A name that is not a string never reaches the target. Whatever the
    virtual methods of the target are, [HasMethod], [HasProperty],
    [GetProperty] and [SetProperty] given a name of any other kind return
    failure (false, or an undefined result) in the unchanged state with
    their message in the exception slot, whatever the slot held; so does
    [Call] when the name is not undefined either. *)
Theorem X8_wrapper_rejects_names_that_are_not_strings
    (V : StaticObjectVirtuals) (this : StaticObjectWrapper)
    (name value : Var) (args : list Var) (exception : Var) (w : World) :
  is_string name = false →
  HasMethod this name exception w =
    Returns (false, VString "method name is not a string") w ∧
  HasProperty this name exception w =
    Returns (false, VString "property name is not a string") w ∧
  GetProperty this name exception w =
    Returns (VUndefined, VString "property name is not a string") w ∧
  SetProperty this name value exception w =
    Returns (VString "property name is not a string") w ∧
  (is_undefined name = false →
   Call this name args exception w =
     Returns (VUndefined, VString "method name is not a string") w).
Proof.
  intros Hname. destruct name; try discriminate Hname;
    split_and!; try reflexivity; intros Hundefined;
    try discriminate Hundefined; reflexivity.
Qed.

Lemma X8_wrapper_rejects_names_that_are_not_strings_witness :
  @GetProperty (StaticObject_base 3)
    (mkStaticObjectWrapper 7%positive 1%positive) (VInt 0)
    (VString "earlier") example_world =
    Returns (VUndefined, VString "property name is not a string")
      example_world.
Proof.
  apply (X8_wrapper_rejects_names_that_are_not_strings (StaticObject_base 3)
           (mkStaticObjectWrapper 7%positive 1%positive) (VInt 0) VNull []
           (VString "earlier") example_world).
  reflexivity.
Defined.

(** ** Chains that run into a cycle *)

Section Walker.
(** [F fuel this] is one of the recursive operations at a fixed state and
    fixed other arguments; [passes a] says that the operation, called on
    [a], goes on to the base class of [a]. *)
Context {A : Type} (w : World) (F : nat → addr → outcome A).
Context (passes : addr → Prop).
Hypothesis F_zero : ∀ this, F 0 this = OutOfFuel.
Hypothesis F_step : ∀ fuel this o b,
  objects w !! this = Some o → base_class_ o = Some b → passes this →
  F (S fuel) this = F fuel b.

Lemma walker_skip before x (fuel : nat) :
  is_base_chain (objects w) (before ++ [x]) = true →
  Forall passes before →
  F (length before + fuel)%nat (hd x before) = F fuel x.
Proof.
  induction before as [|a rest IH]; intros Hchain Hpass; [done|].
  apply is_base_chain_step in Hchain as (o & Ho & Hb & Hchain).
  apply Forall_cons in Hpass as [Ha Hpass].
  cbn [length hd Nat.add]. rewrite (F_step _ _ _ _ Ho Hb Ha). by apply IH.
Qed.

Lemma walker_short before x (fuel : nat) :
  is_base_chain (objects w) (before ++ [x]) = true →
  Forall passes before →
  (fuel ≤ length before)%nat →
  F fuel (hd x before) = OutOfFuel.
Proof.
  revert fuel. induction before as [|a rest IH]; intros fuel Hchain Hpass Hfuel.
  - cbn in Hfuel. replace fuel with 0 by lia. apply F_zero.
  - destruct fuel as [|fuel]; [apply F_zero|].
    apply is_base_chain_step in Hchain as (o & Ho & Hb & Hchain).
    apply Forall_cons in Hpass as [Ha Hpass].
    cbn [hd]. rewrite (F_step _ _ _ _ Ho Hb Ha).
    apply IH; [done..|]. cbn in Hfuel. lia.
Qed.

Lemma walker_cycle a rest (fuel : nat) :
  is_base_chain (objects w) ((a :: rest) ++ [a]) = true →
  Forall passes (a :: rest) →
  F fuel a = OutOfFuel.
Proof.
  intros Hchain Hpass. induction fuel as [fuel IH] using lt_wf_ind.
  destruct (le_lt_dec fuel (length (a :: rest))) as [Hle|Hlt].
  - apply (walker_short (a :: rest) a); done.
  - replace fuel with (length (a :: rest) + (fuel - length (a :: rest)))%nat
      by lia.
    rewrite (walker_skip (a :: rest) a) by done.
    apply IH. cbn [length] in *. lia.
Qed.

Lemma walker_into_cycle before a rest (fuel : nat) :
  is_base_chain (objects w) (before ++ [a]) = true →
  is_base_chain (objects w) ((a :: rest) ++ [a]) = true →
  Forall passes (before ++ a :: rest) →
  F fuel (hd a before) = OutOfFuel.
Proof.
  intros Hentry Hcycle [Hbefore Hrest]%Forall_app.
  destruct (le_lt_dec fuel (length before)) as [Hle|Hlt].
  - by apply walker_short.
  - replace fuel with (length before + (fuel - length before))%nat by lia.
    rewrite walker_skip by done. by apply (walker_cycle a rest).
Qed.
End Walker.

(** X9. A cyclic base chain is not detected. When the chain from a leaf
    leads to a node [a] whose base links lead back to [a], the operations
    that only follow the base link ([HasMethodInner],
    [GetAllPropertyNames], [SetPropertyInner], [CallInner]) exhaust every
    amount of fuel, and so do [HasPropertyInner] and [GetPropertyInner] for
    a name that no node on the way has: none of them returns. *)
Theorem X9_walk_into_a_cycle_never_returns
    (w : World) (before rest : list addr) (a : addr) (name : string)
    (value : Var) (args names : list Var) (instance : Instance)
    (exception result : Var) (fuel : nat) :
  is_base_chain (objects w) (before ++ [a]) = true →
  is_base_chain (objects w) ((a :: rest) ++ [a]) = true →
  let leaf := hd a before in
  HasMethodInner fuel leaf name w = OutOfFuel ∧
  GetAllPropertyNames fuel leaf names exception w = OutOfFuel ∧
  SetPropertyInner fuel leaf name value exception w = OutOfFuel ∧
  CallInner fuel leaf instance name args exception result w = OutOfFuel ∧
  (Forall (λ x, declares (objects w) name x = false) (before ++ a :: rest) →
   HasPropertyInner fuel leaf name w = OutOfFuel ∧
   GetPropertyInner fuel leaf instance name exception result w = OutOfFuel).
Proof.
  intros Hentry Hcycle leaf.
  assert (Forall (λ _ : addr, True) (before ++ a :: rest)) as Htrue
    by (apply Forall_forall; done).
  split_and!.
  - apply (λ Hstep,
             walker_into_cycle w (λ f t, HasMethodInner f t name w)
               (λ _, True) (λ _, eq_refl) Hstep before a rest fuel
               Hentry Hcycle Htrue).
    intros f t o b Ho Hb _. by rewrite (HasMethodInner_step _ _ _ Ho), Hb.
  - apply (λ Hstep,
             walker_into_cycle w
               (λ f t, GetAllPropertyNames f t names exception w)
               (λ _, True) (λ _, eq_refl) Hstep before a rest fuel
               Hentry Hcycle Htrue).
    intros f t o b Ho Hb _.
    by rewrite (GetAllPropertyNames_step _ _ _ Ho), Hb.
  - apply (λ Hstep,
             walker_into_cycle w
               (λ f t, SetPropertyInner f t name value exception w)
               (λ _, True) (λ _, eq_refl) Hstep before a rest fuel
               Hentry Hcycle Htrue).
    intros f t o b Ho Hb _. by rewrite (SetPropertyInner_step _ _ _ Ho), Hb.
  - apply (λ Hstep,
             walker_into_cycle w
               (λ f t, CallInner f t instance name args exception result w)
               (λ _, True) (λ _, eq_refl) Hstep before a rest fuel
               Hentry Hcycle Htrue).
    intros f t o b Ho Hb _. by rewrite (CallInner_step _ _ _ Ho), Hb.
  - intros Hlacks. split.
    + apply (λ Hstep,
               walker_into_cycle w (λ f t, HasPropertyInner f t name w)
                 (λ x, declares (objects w) name x = false) (λ _, eq_refl)
                 Hstep before a rest fuel Hentry Hcycle Hlacks).
      intros f t o b Ho Hb Hn.
      apply (declares_false _ _ _ _ Ho) in Hn.
      by rewrite (HasPropertyInner_step _ _ _ Ho), Hn, Hb.
    + apply (λ Hstep,
               walker_into_cycle w
                 (λ f t,
                    GetPropertyInner f t instance name exception result w)
                 (λ x, declares (objects w) name x = false) (λ _, eq_refl)
                 Hstep before a rest fuel Hentry Hcycle Hlacks).
      intros f t o b Ho Hb Hn.
      apply (declares_false _ _ _ _ Ho) in Hn.
      by rewrite (GetPropertyInner_step _ _ _ Ho), Hn, Hb.
Qed.

Lemma X9_walk_into_a_cycle_never_returns_witness :
  HasMethodInner 1000 1%positive "y" example_cyclic_world = OutOfFuel ∧
  HasPropertyInner 1000 1%positive "y" example_cyclic_world = OutOfFuel.
Proof.
  destruct (X9_walk_into_a_cycle_never_returns example_cyclic_world
              [1%positive] [] 2%positive "y" VNull [] [] 7%positive
              VNull VUndefined 1000) as (Hm & _ & _ & _ & Hp).
  - reflexivity.
  - reflexivity.
  - split; [exact Hm|]. apply Hp. repeat constructor.
Defined.

(** ** Building the graph *)

Section SameAnswers.
(** Two states whose nodes, address by address, have the same base link
    and the same entry for [other]. *)
Context (w1 w2 : World) (other : string).
Hypothesis Hsame : ∀ a,
  option_Forall2
    (λ o1 o2, base_class_ o1 = base_class_ o2 ∧
              namespace_objects_ o1 !! other = namespace_objects_ o2 !! other)
    (objects w1 !! a) (objects w2 !! a).

Lemma HasMethodInner_same fuel a method b :
  HasMethodInner fuel a method w1 = Returns b w1 →
  HasMethodInner fuel a method w2 = Returns b w2.
Proof.
  revert a. induction fuel as [|fuel IH]; intros a; [done|].
  on_receiver w1 a HasMethodInner_step.
  pose proof (Hsame a) as Ha. rewrite Ho in Ha.
  inversion Ha as [o1 o2 [Hb _] Heq1 Heq2|]; subst.
  rewrite (HasMethodInner_step w2 a o2) by done. rewrite <- Hb.
  destruct (base_class_ o) as [base|]; [apply IH|]. by intros [= <-].
Qed.

Lemma HasPropertyInner_same fuel a b :
  HasPropertyInner fuel a other w1 = Returns b w1 →
  HasPropertyInner fuel a other w2 = Returns b w2.
Proof.
  revert a. induction fuel as [|fuel IH]; intros a; [done|].
  on_receiver w1 a HasPropertyInner_step.
  pose proof (Hsame a) as Ha. rewrite Ho in Ha.
  inversion Ha as [o1 o2 [Hb Hn] Heq1 Heq2|]; subst.
  rewrite (HasPropertyInner_step w2 a o2) by done. rewrite <- Hb, <- Hn.
  destruct (namespace_objects_ o !! other); [by intros [= <-]|].
  destruct (base_class_ o) as [base|]; [apply IH|]. by intros [= <-].
Qed.

Lemma GetNamespaceObject_same a p :
  GetNamespaceObject a other w1 = Returns p w1 →
  GetNamespaceObject a other w2 = Returns p w2.
Proof.
  pose proof (Hsame a) as Ha.
  inversion Ha as [o1 o2 [_ Hn] Heq1 Heq2|Heq1 Heq2].
  - rewrite (GetNamespaceObject_live w1 a o1),
      (GetNamespaceObject_live w2 a o2) by done.
    rewrite Hn. by intros [= <-].
  - unfold GetNamespaceObject. by rewrite dead_receiver_faults.
Qed.
End SameAnswers.

(** X10. Registering a child is local to one name of one node. After
    [AddNamespaceObject(name, object)] on a live node, no wrapper has been
    allocated, and for every other name and every node of the graph
    [HasPropertyInner] and [GetNamespaceObject] answer what they answered
    before, as does [HasMethodInner] for every method name. *)
Theorem X10_registration_changes_one_name_only
    (w : World) (this : addr) (o : StaticObject) (name other : string)
    (object : ptr) :
  objects w !! this = Some o →
  name ≠ other →
  ∃ w1,
    AddNamespaceObject this name object w = Returns tt w1 ∧
    wrappers w1 = wrappers w ∧
    (∀ fuel a b,
       HasPropertyInner fuel a other w1 = Returns b w1 ↔
       HasPropertyInner fuel a other w = Returns b w) ∧
    (∀ a p,
       GetNamespaceObject a other w1 = Returns p w1 ↔
       GetNamespaceObject a other w = Returns p w) ∧
    (∀ fuel a method b,
       HasMethodInner fuel a method w1 = Returns b w1 ↔
       HasMethodInner fuel a method w = Returns b w).
Proof.
  intros Ho Hne. eexists. split; [apply (AddNamespaceObject_live _ _ _ Ho)|].
  set (w1 := mkWorld _ _).
  assert (∀ a,
    option_Forall2
      (λ o1 o2, base_class_ o1 = base_class_ o2 ∧
                namespace_objects_ o1 !! other =
                namespace_objects_ o2 !! other)
      (objects w1 !! a) (objects w !! a)) as Hsame.
  { intros a. unfold w1. cbn [objects].
    destruct (decide (this = a)) as [<-|Hna].
    - rewrite lookup_insert_eq, Ho. constructor. cbn.
      split; [done|]. by rewrite lookup_insert_ne.
    - rewrite lookup_insert_ne by done.
      destruct (objects w !! a); by constructor. }
  assert (∀ a,
    option_Forall2
      (λ o1 o2, base_class_ o1 = base_class_ o2 ∧
                namespace_objects_ o1 !! other =
                namespace_objects_ o2 !! other)
      (objects w !! a) (objects w1 !! a)) as Hsame'.
  { intros a. destruct (Hsame a) as [o1 o2 [Hb Hn]|]; by constructor. }
  split_and!; [done|..].
  - intros fuel a b. split; by apply HasPropertyInner_same.
  - intros a p. split; by apply GetNamespaceObject_same.
  - intros fuel a method b.
    split; by apply (HasMethodInner_same _ _ other).
Qed.

Lemma X10_registration_changes_one_name_only_witness :
  ∃ w1,
    AddNamespaceObject 2%positive "y" (Some 4%positive) example_world =
      Returns tt w1 ∧
    HasPropertyInner 3 1%positive "x" w1 = Returns true w1 ∧
    HasPropertyInner 3 1%positive "y" w1 = Returns true w1.
Proof.
  destruct (X10_registration_changes_one_name_only example_world 2%positive
              (mkStaticObject (Some 3%positive) ∅) "y" "x"
              (Some 4%positive) eq_refl)
    as (w1 & Hadd & _ & Hhas & _).
  - discriminate.
  - exists w1. split; [exact Hadd|]. split.
    + apply Hhas. reflexivity.
    + injection Hadd as <-. reflexivity.
Defined.

(** X11. The order in which the graph is built does not matter.
    [SetBaseClass] on one node and [AddNamespaceObject] on any node give
    the same outcome in either order, and so do two [AddNamespaceObject]
    calls that differ in the node or in the name. *)
Theorem X11_construction_steps_commute
    (w : World) (this1 this2 : addr) (base_class object1 object2 : ptr)
    (name1 name2 : string) :
  (SetBaseClass this1 base_class ≫= λ _,
   AddNamespaceObject this2 name2 object2) w =
  (AddNamespaceObject this2 name2 object2 ≫= λ _,
   SetBaseClass this1 base_class) w ∧
  (this1 ≠ this2 ∨ name1 ≠ name2 →
   (AddNamespaceObject this1 name1 object1 ≫= λ _,
    AddNamespaceObject this2 name2 object2) w =
   (AddNamespaceObject this2 name2 object2 ≫= λ _,
    AddNamespaceObject this1 name1 object1) w).
Proof.
  unfold SetBaseClass, AddNamespaceObject.
  unfold mbind, M_bind, bind, deref, store.
  split; [|intros Hdiff]; cbn;
    destruct (objects w !! this1) as [o1|] eqn:H1;
    destruct (objects w !! this2) as [o2|] eqn:H2; cbn;
    destruct (decide (this1 = this2)) as [->|Hne];
    simplify_eq; cbn;
    rewrite ?lookup_insert_eq, ?lookup_insert_ne, ?H1, ?H2 by done;
    cbn; try done.
  - by rewrite !insert_insert_eq.
  - do 2 f_equal. apply insert_insert_ne. congruence.
  - destruct Hdiff as [?|Hname]; [done|].
    rewrite !insert_insert_eq. do 4 f_equal.
    apply insert_insert_ne. congruence.
  - do 2 f_equal. apply insert_insert_ne. congruence.
Qed.

Lemma X11_construction_steps_commute_witness :
  (AddNamespaceObject 1%positive "a" (Some 4%positive) ≫= λ _,
   AddNamespaceObject 1%positive "b" None) example_world =
  (AddNamespaceObject 1%positive "b" None ≫= λ _,
   AddNamespaceObject 1%positive "a" (Some 4%positive)) example_world.
Proof.
  apply (X11_construction_steps_commute example_world 1%positive 1%positive
           None (Some 4%positive) None "a" "b").
  right. discriminate.
Defined.

(** X12. A child registered as [NULL] is a property that cannot be read.
    After [AddNamespaceObject(name, NULL)] on a live node,
    [HasPropertyInner] on that node returns true for the name,
    [GetNamespaceObject] returns [NULL] as it does for a name that was
    never registered, and [GetPropertyInner] faults on the null pointer
    instead of returning. *)
Theorem X12_null_child_is_reported_but_cannot_be_read
    (w : World) (this : addr) (o : StaticObject) (name : string)
    (instance : Instance) (exception result : Var) (fuel : nat) :
  objects w !! this = Some o →
  let w1 :=
    mkWorld
      (<[this := mkStaticObject (base_class_ o)
                   (<[name := None]> (namespace_objects_ o))]> (objects w))
      (wrappers w) in
  (AddNamespaceObject this name None ≫= λ _,
   HasPropertyInner (S fuel) this name) w = Returns true w1 ∧
  (AddNamespaceObject this name None ≫= λ _,
   GetNamespaceObject this name) w = Returns None w1 ∧
  (AddNamespaceObject this name None ≫= λ _,
   GetPropertyInner (S fuel) this instance name exception result) w = Fault.
Proof.
  intros Ho w1. unfold mbind, M_bind, bind.
  rewrite (AddNamespaceObject_live _ _ _ Ho). fold w1.
  assert (objects w1 !! this =
          Some (mkStaticObject (base_class_ o)
                  (<[name := None]> (namespace_objects_ o)))) as H1
    by apply lookup_insert_eq.
  rewrite (HasPropertyInner_step _ _ _ H1), (GetPropertyInner_step _ _ _ H1),
    (GetNamespaceObject_live _ _ _ H1).
  cbn. by rewrite lookup_insert_eq.
Qed.

Lemma X12_null_child_is_reported_but_cannot_be_read_witness :
  (AddNamespaceObject 1%positive "n" None ≫= λ _,
   GetPropertyInner 3 1%positive 7%positive "n" VNull VUndefined)
    example_world = Fault ∧
  GetNamespaceObject 1%positive "never" example_world =
    Returns None example_world.
Proof.
  split; [|reflexivity].
  apply (X12_null_child_is_reported_but_cannot_be_read example_world
           1%positive (mkStaticObject (Some 2%positive) ∅) "n" 7%positive
           VNull VUndefined 2).
  reflexivity.
Defined.

(** ** Further properties of the NPAPI helpers *)

Local Open Scope Z_scope.
Import Npapi.

(** *** [UIntToString] *)

Lemma digit_is_digit (d : Z) :
  0 <= d <= 9 →
  is_digit (digit d) = true ∧ digit_value (digit d) = d.
Proof.
  intros Hd.
  assert (d = 0 ∨ d = 1 ∨ d = 2 ∨ d = 3 ∨ d = 4 ∨ d = 5 ∨ d = 6 ∨ d = 7 ∨
          d = 8 ∨ d = 9) as Hcases by lia.
  repeat destruct Hcases as [->|Hcases]; subst; done.
Qed.

Lemma parse_u_snoc (text : list byte) (c : byte) :
  parse_u (text ++ [c]) = 10 * parse_u text + digit_value c.
Proof. unfold parse_u. by rewrite fold_left_app. Qed.

(** What [decimal] puts in front of its accumulator. *)
Lemma decimal_spec (fuel : nat) (v : Z) (acc : list byte) :
  0 <= v < 2 ^ Z.of_nat fuel →
  ∃ text,
    decimal (S fuel) v acc = (text ++ acc)%list ∧
    text ≠ [] ∧
    Forall (λ c, is_digit c = true) text ∧
    parse_u text = v ∧
    ∀ k : nat, (1 ≤ k)%nat → v < 10 ^ Z.of_nat k → (length text ≤ k)%nat.
Proof.
  revert v acc. induction fuel as [|fuel IH]; intros v acc Hv.
  - assert (v = 0) as -> by (cbn in Hv; lia).
    exists [x30].
    split_and!; try done; try (by repeat constructor);
      intros k Hk _; cbn; lia.
  - assert (0 <= v mod 10 <= 9) as Hd by (pose proof (Z.mod_pos_bound v 10); lia).
    destruct (digit_is_digit _ Hd) as [Hdigit Hvalue].
    cbn [decimal]. destruct (v / 10 =? 0) eqn:Hq.
    + apply Z.eqb_eq in Hq. exists [digit (v mod 10)].
      split_and!; try done; try (by repeat constructor);
        try (intros k Hk _; cbn; lia).
      unfold parse_u. cbn. rewrite Hvalue.
      pose proof (Z.div_mod v 10). lia.
    + apply Z.eqb_neq in Hq.
      assert (0 < v / 10) as Hpos
        by (pose proof (Z.div_pos v 10); lia).
      destruct (IH (v / 10) (digit (v mod 10) :: acc)) as
        (text & Htext & Hne & Hdigits & Hparse & Hlen).
      { split; [lia|]. apply Z.div_lt_upper_bound; [lia|].
        rewrite Nat2Z.inj_succ, Z.pow_succ_r in Hv by lia. lia. }
      exists (text ++ [digit (v mod 10)])%list. split_and!.
      * change (decimal (S fuel) (v / 10) (digit (v mod 10) :: acc) =
                ((text ++ [digit (v mod 10)]) ++ acc)%list).
        by rewrite Htext, <- app_assoc.
      * by destruct text.
      * apply Forall_app. split; [done|]. by repeat constructor.
      * rewrite parse_u_snoc, Hparse, Hvalue.
        pose proof (Z.div_mod v 10). lia.
      * intros k Hk Hvk. rewrite length_app. cbn [length].
        destruct k as [|[|k]]; [lia| |].
        { cbn in Hvk. pose proof (Z.div_mod v 10). lia. }
        assert (length text ≤ S k)%nat; [|lia].
        apply Hlen; [lia|]. apply Z.div_lt_upper_bound; [lia|].
        rewrite (Nat2Z.inj_succ (S k)), Z.pow_succ_r in Hvk by lia. lia.
Qed.

Lemma format_u_spec (v : Z) :
  0 <= v →
  format_u v ≠ [] ∧
  Forall (λ c, is_digit c = true) (format_u v) ∧
  parse_u (format_u v) = v ∧
  ∀ k : nat, (1 ≤ k)%nat → v < 10 ^ Z.of_nat k → (length (format_u v) ≤ k)%nat.
Proof.
  intros Hv. unfold format_u.
  destruct (decimal_spec (S (Z.to_nat (Z.log2 v))) v []) as
    (text & Htext & Hrest).
  - split; [done|]. rewrite Nat2Z.inj_succ, Z2Nat.id by apply Z.log2_nonneg.
    destruct (decide (v = 0)) as [->|Hv0]; [done|].
    apply Z.log2_spec. lia.
  - rewrite Htext, app_nil_r. done.
Qed.

Lemma c_str_before_NUL (text rest : list byte) :
  Forall (λ c, is_digit c = true) text →
  c_str is_NUL (text ++ NUL :: rest) = text.
Proof.
  induction text as [|c text IH]; intros Hdigits; [done|].
  apply Forall_cons in Hdigits as [Hc Hdigits]. cbn.
  destruct (is_NUL c) eqn:Hnul.
  - destruct c; discriminate.
  - by rewrite IH.
Qed.

(** X13. [UIntToString] returns the complete decimal text of its 32-bit
    argument: between one and ten characters, all of them digits, never
    cut by the eleven-byte buffer, and reading the text back as a decimal
    number gives the argument. *)
Theorem X13_UIntToString_is_the_decimal_text (value : Z) :
  let v := value mod 2 ^ 32 in
  UIntToString value = format_u v ∧
  (1 ≤ length (UIntToString value) ≤ 10)%nat ∧
  Forall (λ c, is_digit c = true) (UIntToString value) ∧
  parse_u (UIntToString value) = v.
Proof.
  intros v.
  assert (0 <= v < 2 ^ 32) as Hv by (apply Z.mod_pos_bound; lia).
  destruct (format_u_spec v) as (Hne & Hdigits & Hparse & Hlen); [lia|].
  assert (length (format_u v) ≤ 10)%nat as Hten.
  { apply Hlen; [lia|]. change (10 ^ Z.of_nat 10) with 10000000000. lia. }
  assert (UIntToString value = format_u v) as ->.
  { unfold UIntToString, snprintf_u. fold v.
    change (Z.to_nat (11 - 1)) with 10%nat.
    rewrite take_ge by done. cbn [app].
    by apply c_str_before_NUL. }
  split_and!; try done.
  destruct (format_u v); [done|]. cbn. lia.
Qed.

Example UIntToString_examples :
  UIntToString 0 = [x30] ∧
  UIntToString 4294967295 =
    [x34; x32; x39; x34; x39; x36; x37; x32; x39; x35] ∧
  UIntToString (-1) = UIntToString 4294967295.
Proof. split_and!; reflexivity. Qed.

(** *** Strings handed to the browser *)




Lemma StringToNPVariant_calls (B : Browser) (in_ : list byte)
    (variant : NPVariant) (s : memory * browser_state B) :
  snd (run B (StringToNPVariant in_ variant) s) =
    [called (NPN_MemAlloc (Z.of_nat (length in_)))].
Proof.
  unfold StringToNPVariant. cbn.
  destruct (answer B _ (NPN_MemAlloc (Z.of_nat (length in_))) s) as [p s'].
  cbn. by destruct (p =? NULL).
Qed.

(** X15. [String16ToNPVariant] asks the browser for memory only after the
    conversion has succeeded. When [String16ToUTF8] fails, it returns
    false with the variant void and has made no browser call; on Linux,
    where the conversion cannot fail, it behaves as [StringToNPVariant] on
    the narrowed characters and so requests one byte per wide character. *)
Theorem X15_String16ToNPVariant_converts_before_allocating
    (B : Browser) (platform : Platform) (api : PlatformApi)
    (in_ : list wchar_t) (variant : NPVariant)
    (s : memory * browser_state B) :
  (fst (String16ToUTF8 platform api in_ []) = false →
   run B (String16ToNPVariant platform api in_ variant) s =
     (false, NPVoid, s, [])) ∧
  run B (String16ToNPVariant OS_LINUX api in_ variant) s =
    run B (StringToNPVariant (map char_of_wchar in_) variant) s ∧
  snd (run B (String16ToNPVariant OS_LINUX api in_ variant) s) =
    [called (NPN_MemAlloc (Z.of_nat (length in_)))].
Proof.
  assert (String16ToUTF8 OS_LINUX api in_ [] = (true, map char_of_wchar in_))
    as Hlinux.
  { unfold String16ToUTF8. destruct in_ as [|c rest]; [done|].
    by destruct (nonempty_length (c :: rest)) as [-> _]. }
  split_and!.
  - unfold String16ToNPVariant.
    destruct (String16ToUTF8 platform api in_ []) as [r out8]. cbn.
    by intros ->.
  - unfold String16ToNPVariant. by rewrite Hlinux.
  - unfold String16ToNPVariant. rewrite Hlinux. cbn -[StringToNPVariant].
    by rewrite StringToNPVariant_calls, length_map.
Qed.

Lemma X15_String16ToNPVariant_converts_before_allocating_witness :
  run example_browser
    (String16ToNPVariant OS_WINDOWS example_failing_api [104; 105] NPNull)
    example_state = (false, NPVoid, example_state, []).
Proof.
  apply (X15_String16ToNPVariant_converts_before_allocating example_browser
           OS_WINDOWS example_failing_api [104; 105] NPNull example_state).
  reflexivity.
Defined.

(** *** The conversions, platform by platform *)

Lemma wrap_int32_char_value (c : byte) :
  wrap_int32 (char_value c) = char_value c.
Proof. destruct c; reflexivity. Qed.

Lemma char_value_range (c : byte) :
  -128 <= char_value c <= 127 ∧
  (char_value c < 0 ↔ (128 <= Byte.to_N c)%N).
Proof. destruct c; cbn; lia. Qed.

Lemma UTF8ToString16_linux api (in_ : list byte) (out16 : list wchar_t) :
  UTF8ToString16 OS_LINUX api in_ out16 = (true, map char_value in_).
Proof.
  unfold UTF8ToString16. destruct in_ as [|c rest]; [done|].
  destruct (nonempty_length (c :: rest)) as [-> _]; [done|].
  f_equal. apply map_ext. intros a. apply wrap_int32_char_value.
Qed.

Lemma String16ToUTF8_linux api (in_ : list wchar_t) (out8 : list byte) :
  String16ToUTF8 OS_LINUX api in_ out8 = (true, map char_of_wchar in_).
Proof.
  unfold String16ToUTF8. destruct in_ as [|c rest]; [done|].
  by destruct (nonempty_length (c :: rest)) as [-> _].
Qed.

(** X16. On Linux [UTF8ToString16] does not decode UTF-8: it always
    succeeds and yields one wide character per input byte, the value of
    the byte as a signed [char]. A byte below 0x80 keeps its code; a byte
    from 0x80 on, as every byte of a multi-byte sequence is, becomes a
    negative wide character. *)
Theorem X16_linux_widening_is_bytewise
    (api : PlatformApi) (in_ : list byte) (out16 : list wchar_t) :
  UTF8ToString16 OS_LINUX api in_ out16 = (true, map char_value in_) ∧
  length (snd (UTF8ToString16 OS_LINUX api in_ out16)) = length in_ ∧
  Forall (λ c, -128 <= char_value c <= 127 ∧
               (char_value c < 0 ↔ (128 <= Byte.to_N c)%N)) in_.
Proof.
  rewrite UTF8ToString16_linux. split_and!; [done|apply length_map|].
  apply Forall_forall. intros c _. apply char_value_range.
Qed.

Example UTF8ToString16_linux_e_acute :
  UTF8ToString16 OS_LINUX example_failing_api [xc3; xa9] [] =
    (true, [-61; -87]).
Proof. reflexivity. Qed.

(** X17. On Linux [String16ToUTF8] does not encode UTF-8: it always
    succeeds, yields one byte per wide character, and the byte depends on
    the low eight bits only, so two wide strings that agree modulo 256
    character by character are converted to the same bytes. *)
Theorem X17_linux_narrowing_keeps_low_bytes
    (api : PlatformApi) (in1 in2 : list wchar_t) (out1 out2 : list byte) :
  Forall2 (λ a b, a mod 256 = b mod 256) in1 in2 →
  String16ToUTF8 OS_LINUX api in1 out1 = String16ToUTF8 OS_LINUX api in2 out2 ∧
  fst (String16ToUTF8 OS_LINUX api in1 out1) = true ∧
  length (snd (String16ToUTF8 OS_LINUX api in1 out1)) = length in1.
Proof.
  intros Hsame. rewrite !String16ToUTF8_linux. cbn [fst snd].
  split_and!; [|done|apply length_map].
  f_equal. induction Hsame as [|a b l1 l2 Hab _ IH]; [done|].
  cbn [map]. rewrite IH. f_equal. unfold char_of_wchar. by rewrite Hab.
Qed.

Lemma X17_linux_narrowing_keeps_low_bytes_witness :
  String16ToUTF8 OS_LINUX example_failing_api [321] [] =
  String16ToUTF8 OS_LINUX example_failing_api [65] [].
Proof.
  apply (X17_linux_narrowing_keeps_low_bytes example_failing_api
           [321] [65] [] []).
  repeat constructor.
Defined.

Lemma c_str_has_no_WNUL (buffer : list wchar_t) :
  WNUL ∉ c_str is_WNUL buffer.
Proof.
  induction buffer as [|c rest IH]; cbn.
  - apply not_elem_of_nil.
  - destruct (is_WNUL c) eqn:Hc; [apply not_elem_of_nil|].
    apply not_elem_of_cons. split; [|done].
    intros <-. discriminate Hc.
Qed.

(** X18. What the conversions leave in their output. A conversion that
    returns false leaves the output string as it was, on every platform;
    and on Windows and on the Mac a conversion that returns true has
    produced a string without any NUL character, because the output is
    assigned from a C string. *)
Theorem X18_conversion_outputs
    (platform : Platform) (api : PlatformApi) (in8 out8 : list byte)
    (in16 out16 : list wchar_t) :
  (fst (UTF8ToString16 platform api in8 out16) = false →
   snd (UTF8ToString16 platform api in8 out16) = out16) ∧
  (fst (String16ToUTF8 platform api in16 out8) = false →
   snd (String16ToUTF8 platform api in16 out8) = out8) ∧
  (platform ≠ OS_LINUX →
   fst (UTF8ToString16 platform api in8 out16) = true →
   WNUL ∉ snd (UTF8ToString16 platform api in8 out16)) ∧
  (platform ≠ OS_LINUX →
   fst (String16ToUTF8 platform api in16 out8) = true →
   NUL ∉ snd (String16ToUTF8 platform api in16 out8)).
Proof.
  unfold UTF8ToString16, String16ToUTF8. split_and!.
  - destruct (Z.of_nat (length in8) =? 0); [done|].
    destruct platform; [| |done].
    + by destruct (CF_UTF8_to_UTF32 api _).
    + destruct (MultiByteToWideChar api in8) as [tmp|]; [|done].
      by destruct (Z.of_nat (length tmp) <=? 0).
  - destruct (Z.of_nat (length in16) =? 0); [done|].
    destruct platform; [| |done].
    + by destruct (Z.of_nat (length (CF_UTF32_to_UTF8 api in16)) <=? 0).
    + destruct (WideCharToMultiByte api in16) as [tmp|]; [|done].
      by destruct (Z.of_nat (length tmp) <=? 0).
  - intros Hplatform.
    destruct (Z.of_nat (length in8) =? 0); [intros _; apply not_elem_of_nil|].
    destruct platform; [| |done].
    + destruct (CF_UTF8_to_UTF32 api _); [|done].
      intros _. apply c_str_has_no_WNUL.
    + destruct (MultiByteToWideChar api in8) as [tmp|]; [|done].
      destruct (Z.of_nat (length tmp) <=? 0); [done|].
      intros _. apply c_str_has_no_WNUL.
  - intros Hplatform.
    destruct (Z.of_nat (length in16) =? 0); [intros _; apply not_elem_of_nil|].
    destruct platform; [| |done].
    + destruct (Z.of_nat (length (CF_UTF32_to_UTF8 api in16)) <=? 0); [done|].
      intros _. apply c_str_has_no_NUL.
    + destruct (WideCharToMultiByte api in16) as [tmp|]; [|done].
      destruct (Z.of_nat (length tmp) <=? 0); [done|].
      intros _. apply c_str_has_no_NUL.
Qed.

Lemma X18_conversion_outputs_witness :
  snd (UTF8ToString16 OS_WINDOWS example_failing_api [x68; x69] [7; 8]) =
    [7; 8].
Proof.
  apply (X18_conversion_outputs OS_WINDOWS example_failing_api [x68; x69] []
           [] [7; 8]).
  reflexivity.
Defined.

(** *** [CreateArray] *)

(** Destructs the answers of the handler one after the other. *)
Ltac answer_all H :=
  repeat match goal with
         | |- context [handle H ?T ?call ?s] =>
             let t := fresh "t" in
             destruct (handle H T call s) as [t ?];
             lazymatch type of t with
             | (_ * _)%type => destruct t
             | unit => destruct t
             | _ => idtac
             end; cbn -[String.eqb]
         end.

(** X19. [CreateArray] evaluates the two characters ["[]"] once, in the
    window object the browser has just answered. It returns the object of
    the result when the evaluation succeeded with an object, and [NULL]
    otherwise; it releases the result exactly when the evaluation
    succeeded with something that is not an object, and makes no other
    browser call. *)
Theorem X19_CreateArray_returns_the_evaluated_array
    (H : Handler ArrayCall) (npp : NPP) (s : handler_state H) :
  let '(_, s1) := handle H _ (GLUE_PROFILE_START npp "CreateArray") s in
  let '(_, s2) := handle H _ (GLUE_PROFILE_START npp "getvalue") s1 in
  let '(_, global_object, s3) :=
    handle H _ (NPN_GetValue_NPNVWindowNPObject npp) s2 in
  let '(_, s4) := handle H _ (GLUE_PROFILE_STOP npp "getvalue") s3 in
  let '(_, s5) := handle H _ (GLUE_PROFILE_START npp "evaluate") s4 in
  let evaluate := NPN_Evaluate npp global_object [x5b; x5d] in
  let '(temp, result, s6) := handle H _ evaluate s5 in
  let r := exec H (CreateArray npp) s in
  fst (fst r) =
    (if temp then match result with NPObject object => object | _ => NULL end
     else NULL) ∧
  browser_calls (snd r) =
    ([existT _ (NPN_GetValue_NPNVWindowNPObject npp); existT _ evaluate] ++
     (if temp
      then match result with
           | NPObject _ => []
           | _ => [existT _ (NPN_ReleaseVariantValue result)]
           end
      else []))%list.
Proof.
  unfold CreateArray. cbn. answer_all H.
  repeat match goal with
         | t : bool |- _ => destruct t
         | t : NPVariant |- _ => destruct t
         end; cbn; answer_all H; done.
Qed.

Example CreateArray_examples :
  fst (exec (example_array_browser (true, NPObject 9)) (CreateArray 1) []) =
    (9, []) ∧
  fst (exec (example_array_browser (true, NPInt32 3)) (CreateArray 1) []) =
    (NULL, [NPInt32 3]) ∧
  fst (exec (example_array_browser (false, NPObject 9)) (CreateArray 1) []) =
    (NULL, []).
Proof. split_and!; reflexivity. Qed.

(** X20. [CreateArray] never stops the profile it starts. On every path
    and against every browser, the profile ["CreateArray"] has been started
    once more than it has been stopped when the function returns, while
    every other profile key is balanced: the [GLUE_PROFILE_STOP] at the end
    of the function is behind both [return]s. *)
Theorem X20_CreateArray_leaves_its_profile_open
    (H : Handler ArrayCall) (npp : NPP) (s : handler_state H)
    (key : string) :
  profile_depth key (snd (exec H (CreateArray npp) s)) =
    if String.eqb "CreateArray" key then 1 else 0.
Proof.
  unfold CreateArray. cbn -[String.eqb]. answer_all H.
  repeat match goal with
         | t : bool |- _ => destruct t
         | t : NPVariant |- _ => destruct t
         end; cbn -[String.eqb]; answer_all H;
    repeat match goal with
           | |- context [String.eqb ?a key] => destruct (String.eqb a key)
           end; lia.
Qed.

(** *** The plugin entry points *)

Lemma destroy_nothing (H : Handler PluginCall) (instance : NPP) (n : nat)
    (s : handler_state H) :
  exec H (destroy_times n instance NULL) s = (NPERR_NO_ERROR, NULL, s, []).
Proof. induction n as [|n IH]; [done|]. cbn. exact IH. Qed.

(** X21. [NPP_Destroy] releases the root object at most once. Called on
    an instance whose [pdata] is not [NULL] it makes one call,
    [NPN_ReleaseObject] of that object, and called on one whose [pdata] is
    [NULL] it makes none; either way [pdata] is [NULL] afterwards, so any
    number of further calls changes nothing and releases nothing. *)
Theorem X21_NPP_Destroy_releases_at_most_once
    (H : Handler PluginCall) (instance : NPP) (pdata : pointer)
    (s : handler_state H) (n : nat) :
  exec H (NPP_Destroy instance pdata) s =
    (if pdata =? NULL
     then (NPERR_NO_ERROR, NULL, s, [])
     else (NPERR_NO_ERROR, NULL,
           snd (handle H _ (NPN_ReleaseObject pdata) s),
           [existT _ (NPN_ReleaseObject pdata)])) ∧
  exec H (destroy_times (S n) instance pdata) s =
    exec H (NPP_Destroy instance pdata) s.
Proof.
  cbn [destroy_times]. unfold NPP_Destroy.
  destruct (pdata =? NULL) eqn:Hnull; cbn.
  - apply Z.eqb_eq in Hnull as ->. by rewrite destroy_nothing.
  - destruct (handle H _ (NPN_ReleaseObject pdata) s) as [[] s1]. cbn.
    by rewrite destroy_nothing.
Qed.

Example NPP_Destroy_example :
  exec example_plugin_host (destroy_times 3 1 100) 2 =
    (NPERR_NO_ERROR, NULL, 1, [existT _ (NPN_ReleaseObject 100)]).
Proof. reflexivity. Qed.

(** X22. The life of an instance. [NPP_New] initialises the glue and
    stores the root object it has created, without looking at what [pdata]
    held; [NPP_GetValue] for the scriptable object retains that object
    once and hands it out with [NPERR_NO_ERROR]; [NPP_Destroy] then
    releases it once, unless it is [NULL], and clears [pdata]. For any
    other variable [NPP_GetValue] returns [NPERR_GENERIC_ERROR] without a
    call and without touching the value. *)
Theorem X22_instance_life_cycle
    (H : Handler PluginCall) (instance : NPP) (pdata0 value0 : pointer)
    (variable : NPPVariable) (s : handler_state H) :
  (let '(_, s1) := handle H _ (InitializeGlue instance) s in
   let '(obj, s2) := handle H _ (CreateStaticNPObject instance NULL) s1 in
   let '(_, s3) := handle H _ (NPN_RetainObject obj) s2 in
   exec H
     ('(_, pdata1) ← NPP_New instance pdata0;
      '(error, value) ←
        NPP_GetValue instance pdata1 NPPVpluginScriptableNPObject value0;
      '(_, pdata2) ← NPP_Destroy instance pdata1;
      mret (error, value, pdata2)) s =
     (NPERR_NO_ERROR, obj, NULL,
      (if obj =? NULL then s3
       else snd (handle H _ (NPN_ReleaseObject obj) s3)),
      ([existT _ (InitializeGlue instance);
        existT _ (CreateStaticNPObject instance NULL);
        existT _ (NPN_RetainObject obj)] ++
       (if obj =? NULL then []
        else [existT _ (NPN_ReleaseObject obj)]))%list)) ∧
  (variable ≠ NPPVpluginScriptableNPObject →
   exec H (NPP_GetValue instance pdata0 variable value0) s =
     (NPERR_GENERIC_ERROR, value0, s, [])).
Proof.
  split.
  - unfold NPP_New, NPP_GetValue, NPP_Destroy. cbn.
    destruct (handle H _ (InitializeGlue instance) s) as [[] s1]. cbn.
    destruct (handle H _ (CreateStaticNPObject instance NULL) s1)
      as [obj s2]. cbn.
    destruct (handle H _ (NPN_RetainObject obj) s2) as [[] s3]. cbn.
    destruct (obj =? NULL) eqn:Hnull; cbn.
    + by apply Z.eqb_eq in Hnull as ->.
    + by destruct (handle H _ (NPN_ReleaseObject obj) s3) as [[] s4].
  - intros Hvariable. by destruct variable.
Qed.

Lemma X22_instance_life_cycle_witness :
  exec example_plugin_host
    (NPP_GetValue 1 100 NPPVpluginNameString 55) 1 =
    (NPERR_GENERIC_ERROR, 55, 1, []).
Proof.
  apply (X22_instance_life_cycle example_plugin_host 1 100 55
           NPPVpluginNameString 1).
  discriminate.
Defined.

Example instance_life_cycle_example :
  exec example_plugin_host
    ('(_, pdata1) ← NPP_New 1 0;
     '(error, value) ← NPP_GetValue 1 pdata1 NPPVpluginScriptableNPObject 0;
     '(_, pdata2) ← NPP_Destroy 1 pdata1;
     mret (error, value, pdata2)) 0 =
    (NPERR_NO_ERROR, 100, NULL, 1,
     [existT _ (InitializeGlue 1); existT _ (CreateStaticNPObject 1 NULL);
      existT _ (NPN_RetainObject 100); existT _ (NPN_ReleaseObject 100)]).
Proof. reflexivity. Qed.
